(** * rain: the tag-aware template reader and its equivalence check

    A shallow embedding of package [parse] (the reader for CloudFormation
    templates written in YAML with the short intrinsic-function tags) and
    of the properties its specification states.

    Go values of type [interface{}] are embedded as the inductive type
    [value]; a Go map is a [gmap], so that two maps with the same entries
    are equal; a Go [(T, error)] result is a pair whose second component
    is an [option error].  Functions of the Go standard library and of
    the third-party packages the code calls ([strings.SplitN],
    [json.Unmarshal], [ioutil.ReadAll], [ioutil.ReadFile], [cmp.Diff]) are
    embedded from their documented behaviour; the YAML converter
    ([yamlwrapper.YAMLToJSON]) is a parameter of the development. *)

From Stdlib Require Import ZArith Ascii String.
From stdpp Require Import gmap strings list fin_maps pretty.

#[local] Set Warnings "-register-all".
#[local] Open Scope string_scope.

(** ** Values *)

(** The dynamic values held by an [interface{}] after decoding: the nil
    interface, [bool], a numeric scalar ([float64] after JSON decoding; only
    finite numbers occur there and Go's [==] on them is rendered by equality
    of an integer code), [string], [[]interface{}] and
    [map[string]interface{}].  Sequences and maps inside a value are never
    nil: the decoder allocates them, and a nil map can only be a whole
    document (see [document]). *)
Inductive value : Type :=
| VNil
| VBool (b : bool)
| VNumber (n : Z)
| VString (s : string)
| VSlice (l : list value)
| VMap (m : gmap string value).

(** [map[string]interface{}] as a variable's type: [None] is the nil map. *)
Definition document : Type := option (gmap string value).

(** Go's [error], by its message. *)
Definition error : Type := string.

(** [fmt.Errorf(prefix + "%s", cause)]. *)
Definition Errorf (prefix : string) (cause : error) : error :=
  prefix +:+ cause.

(** ** Package [strings] *)

Module strings_.

(** [strings.HasPrefix]. *)
Fixpoint HasPrefix (s pre : string) : bool :=
  match pre, s with
  | EmptyString, _ => true
  | String c pre', String d s' => if Ascii.eqb c d then HasPrefix s' pre' else false
  | String _ _, EmptyString => false
  end.

(** [strings.Index]: the byte offset of the first instance of [sep] in
    [s], or [-1]. *)
Fixpoint Index (s sep : string) : Z :=
  if HasPrefix s sep then 0%Z
  else match s with
       | EmptyString => (-1)%Z
       | String _ s' =>
           let m := Index s' sep in
           if (m <? 0)%Z then (-1)%Z else (m + 1)%Z
       end.

(** [s[:m]] and [s[m:]]. *)
Fixpoint take_bytes (m : nat) (s : string) : string :=
  match m, s with
  | S m', String c s' => String c (take_bytes m' s')
  | _, _ => EmptyString
  end.

Fixpoint drop_bytes (m : nat) (s : string) : string :=
  match m, s with
  | S m', String _ s' => drop_bytes m' s'
  | _, _ => s
  end.

(** [strings.Count] for a non-empty [sep]: non-overlapping instances. *)
Fixpoint Count_fuel (fuel : nat) (s sep : string) : nat :=
  match fuel with
  | O => 0
  | S fuel' =>
      let m := Index s sep in
      if (m <? 0)%Z then 0
      else S (Count_fuel fuel' (drop_bytes (Z.to_nat m + String.length sep) s) sep)
  end.

Definition Count (s sep : string) : nat :=
  Count_fuel (S (String.length s)) s sep.

(** The loop of [genSplit]: at most [k] cuts, then the rest of [s]. *)
Fixpoint split_loop (k : nat) (s sep : string) : list string :=
  match k with
  | O => [s]
  | S k' =>
      let m := Index s sep in
      if (m <? 0)%Z then [s]
      else take_bytes (Z.to_nat m) s
             :: split_loop k' (drop_bytes (Z.to_nat m + String.length sep) s) sep
  end.

(** [explode], for a string of single-byte characters: [k] one-byte
    pieces, then the rest. *)
Fixpoint explode (k : nat) (s : string) : list string :=
  match k, s with
  | S k', String c s' => String c EmptyString :: explode k' s'
  | _, _ => [s]
  end.

(** [strings.SplitN(s, sep, n)]. *)
Definition SplitN (s sep : string) (n : Z) : list string :=
  if (n =? 0)%Z then []
  else if String.eqb sep "" then
    let len := Z.of_nat (String.length s) in
    let n := if ((n <? 0) || (len <? n))%Z then len else n in
    match s with
    | EmptyString => []
    | _ => explode (Z.to_nat (n - 1)) s
    end
  else
    let n := if (n <? 0)%Z then (Z.of_nat (Count s sep) + 1)%Z else n in
    let n := if (Z.of_nat (String.length s) + 1 <? n)%Z
             then (Z.of_nat (String.length s) + 1)%Z else n in
    split_loop (Z.to_nat (n - 1)) s sep.

End strings_.

(** ** The tag normalizer *)

Definition tags : list string :=
  [ "And"; "Base64"; "Cidr"; "Equals"; "FindInMap"; "GetAZs"; "GetAtt"; "If";
    "ImportValue"; "Join"; "Not"; "Or"; "Ref"; "Select"; "Split"; "Sub";
    "Transform" ].

(** [for i, v := range parts { out[i] = v }]. *)
Definition fill (out : list value) (parts : list string) : list value :=
  foldl (λ acc iv, <[iv.1 := VString iv.2]> acc) out (imap pair parts).

Definition transformGetAtt (v : value) : value :=
  match v with
  | VString s => VSlice (fill (replicate 2 VNil) (strings_.SplitN s "." 2))
  | _ => v
  end.

(** A [reflect.Value], by the value it holds; [None] is the zero Value, which
    holds nothing. *)
Definition reflect_Value : Type := option value.

(** [reflect.ValueOf(i)]: for the nil interface it is the zero Value. *)
Definition reflect_ValueOf (i : value) : reflect_Value :=
  match i with
  | VNil => None
  | _ => Some i
  end.

(** [m.SetMapIndex(key, elem)]: when [elem] is the zero Value the key is
    deleted from the map. *)
Definition SetMapIndex (m : gmap string value) (key : string) (elem : reflect_Value)
  : gmap string value :=
  match elem with
  | Some e => <[key := e]> m
  | None => delete key m
  end.

(** The argument [value] of the source, here [val], is a valid
    [reflect.Value], given by what [value.Interface()] returns; [VNil] is a
    Value of interface kind that holds nil. *)
Definition UnmarshalYAMLTag (tag : string) (val : value) : gmap string value :=
  let prefix := if String.eqb tag "Ref" || String.eqb tag "Condition"
                then "" else "Fn::" in
  let tag := prefix +:+ tag in
  let val : reflect_Value :=
    if String.eqb tag "Fn::GetAtt" then reflect_ValueOf (transformGetAtt val)
    else Some val in
  let output : gmap string value := ∅ in
  SetMapIndex output tag val.

(** ** Reading *)

(** [json.Unmarshal(parsed, &output)] for [output] of type
    [map[string]interface{}].  The JSON text is represented by the value it
    denotes.  [null] leaves [output] as it is, an object is stored into it
    (into a fresh map when [output] is nil), and every other JSON value is a
    type error that leaves [output] untouched. *)
Definition json_kind (v : value) : string :=
  match v with
  | VNil => "null"
  | VBool _ => "bool"
  | VNumber _ => "number"
  | VString _ => "string"
  | VSlice _ => "array"
  | VMap _ => "object"
  end.

Definition json_Unmarshal (parsed : value) (output : document)
  : document * option error :=
  match parsed with
  | VNil => (output, None)
  | VMap m => (Some (m ∪ default ∅ output), None)
  | _ => (output,
          Some ("json: cannot unmarshal " +:+ json_kind parsed
                +:+ " into Go value of type map[string]interface {}"))
  end.

(** An [io.Reader], by what [ioutil.ReadAll] gets out of it: the bytes read
    until end of input or until the first failure, and that failure. *)
Record Reader : Type := MkReader {
  stream_data : string;
  stream_err : option error;
}.

Definition ioutil_ReadAll (r : Reader) : string * option error :=
  (stream_data r, stream_err r).

(** What opening and reading a path that exists gives: its contents, the
    failure of the open, or the failure of a read after an open that
    succeeded, with the bytes read until then. *)
Inductive file : Type :=
| Readable (contents : string)
| OpenFails (cause : string)
| ReadFails (partial : string) (cause : string).

(** A file system; a path that is not in the map does not exist. *)
Definition filesystem : Type := gmap string file.

(** [ioutil.ReadFile]: failures are [*PathError]s, whose message is the
    operation that failed, the path and the cause. *)
Definition ioutil_ReadFile (fs : filesystem) (fileName : string)
  : string * option error :=
  match fs !! fileName with
  | Some (Readable contents) => (contents, None)
  | Some (OpenFails cause) => ("", Some ("open " +:+ fileName +:+ ": " +:+ cause))
  | Some (ReadFails partial cause) =>
      (partial, Some ("read " +:+ fileName +:+ ": " +:+ cause))
  | None => ("", Some ("open " +:+ fileName +:+ ": no such file or directory"))
  end.

Section Read.

(** [yamlwrapper.YAMLToJSON]: the converter, with the tag normalizer
    registered in it; its JSON output is represented by the value it
    denotes. *)
Variable YAMLToJSON : string → value * option error.

Definition ReadString (input : string) : document * option error :=
  let '(parsed, err) := YAMLToJSON input in
  match err with
  | Some err => (None, Some (Errorf "Invalid YAML: " err))
  | None =>
      let '(output, err) := json_Unmarshal parsed None in
      match err with
      | Some err => (None, Some (Errorf "Invalid YAML: " err))
      | None => (output, None)
      end
  end.

Definition Read (r : Reader) : document * option error :=
  let '(data, err) := ioutil_ReadAll r in
  match err with
  | Some err => (None, Some (Errorf "Unable to read input: " err))
  | None => ReadString data
  end.

Definition ReadFile (fs : filesystem) (fileName : string)
  : document * option error :=
  let '(source, err) := ioutil_ReadFile fs fileName in
  match err with
  | Some err => (None, Some (Errorf "Unable to read file: " err))
  | None => ReadString source
  end.

End Read.

(** ** The equivalence check *)

(** The function given to [cmp.Transformer] in [VerifyOutput].  It stores
    into the map it is given and returns that same map: the result is both
    the value the comparison goes on with and the contents of the argument
    after the call. *)
Definition GetAtt_transformer (m : gmap string value) : gmap string value :=
  map_imap (λ k v, Some (if String.eqb k "Fn::GetAtt" then transformGetAtt v else v)) m.

(** An upper bound on the number of nested comparisons a value can take
    part in; a map counts twice because the transformer may turn a string
    below it into a sequence. *)
Fixpoint depth (v : value) : nat :=
  match v with
  | VSlice l => S (max_list (depth <$> l))
  | VMap m => S (S (max_list ((map_to_list (depth <$> m)).*2)))
  | _ => 0
  end.

(** Package [cmp] (go-cmp), as far as [VerifyOutput] uses it: the comparison
    of two decoded documents under one option, the GetAtt transformer.  The
    library tries its options at every node of the two values, so the
    transformer runs on every pair of maps the comparison reaches, not on
    the roots only; it is not run again on its own result.  Below the
    options the comparison is deep structural equality: a nil interface
    equals a nil interface only, values of different dynamic types differ,
    scalars are compared with [==], sequences element by element and maps
    key by key over the union of their keys. *)
Module cmp.

(** The steps of a [cmp.Path] that locate a value in a document. *)
Inductive PathStep : Type :=
| MapIndex (k : string)
| SliceIndex (i : nat).

Definition Path : Type := list PathStep.

(** What one comparison leaves behind: the paths, from the compared
    node, at which this walk finds a difference, and the two compared
    values as the transformer calls of this walk have left them.  Of the
    paths only whether there is one is the library's: its own report aligns
    sequences by an edit script and is not reproduced here. *)
Record outcome : Type := Outcome {
  report : list Path;
  left : value;
  right : value;
}.

Section steps.

(** The comparison of two values one level down. *)
Variable compareAny : value → value → outcome.

(** Sequences are compared index by index; an index that only one side
    has is a difference and is not entered.  (The library aligns the two
    sequences by an edit script before it reports; it finds no
    difference exactly when the sequences have the same length and
    equal elements at every index, as here.) *)
Fixpoint compareSlice (i : nat) (lx ly : list value)
  : list Path * list value * list value :=
  match lx, ly with
  | [], [] => ([], [], [])
  | x :: lx', y :: ly' =>
      let r := compareAny x y in
      let '(d, lx'', ly'') := compareSlice (S i) lx' ly' in
      (((cons (SliceIndex i) <$> report r) ++ d)%list, left r :: lx'', right r :: ly'')
  | _ :: _, [] => ((λ j, [SliceIndex j]) <$> seq i (length lx), lx, [])
  | [], _ :: _ => ((λ j, [SliceIndex j]) <$> seq i (length ly), [], ly)
  end.

(** One key of the union of the two key sets. *)
Definition compareEntry (ox oy : option value)
  : option (list Path * option value * option value) :=
  match ox, oy with
  | Some x, Some y =>
      let r := compareAny x y in
      Some (report r, Some (left r), Some (right r))
  | Some x, None => Some ([[]], Some x, None)
  | None, Some y => Some ([[]], None, Some y)
  | None, None => None
  end.

Definition entry_report (kr : string * (list Path * option value * option value))
  : list Path :=
  cons (MapIndex kr.1) <$> kr.2.1.1.

Definition compareMap (mx my : gmap string value)
  : list Path * gmap string value * gmap string value :=
  let rs : gmap string (list Path * option value * option value) :=
    merge compareEntry mx my in
  (map_to_list rs ≫= entry_report,
   omap (λ r : list Path * option value * option value, r.1.2) rs,
   omap (λ r : list Path * option value * option value, r.2) rs).

End steps.

(** [compareAny] on two interface values, with the GetAtt transformer as
    the only option: nil interfaces, then dynamic types, then the
    transformer where the type is [map[string]interface{}], then the
    comparison by kind.  [n] bounds the nesting. *)
Fixpoint compareAny (n : nat) (x y : value) : outcome :=
  match n with
  | O => Outcome [[]] x y
  | S n' =>
      match x, y with
      | VNil, VNil => Outcome [] x y
      | VBool a, VBool b => Outcome (if Bool.eqb a b then [] else [[]]) x y
      | VNumber a, VNumber b => Outcome (if Z.eqb a b then [] else [[]]) x y
      | VString a, VString b => Outcome (if String.eqb a b then [] else [[]]) x y
      | VSlice lx, VSlice ly =>
          let '(d, lx', ly') := compareSlice (compareAny n') 0 lx ly in
          Outcome d (VSlice lx') (VSlice ly')
      | VMap mx, VMap my =>
          let '(d, mx', my') :=
            compareMap (compareAny n') (GetAtt_transformer mx) (GetAtt_transformer my) in
          Outcome d (VMap mx') (VMap my')
      | _, _ => Outcome [[]] x y
      end
  end.

(** A text for the differences found.  The text of the library's report is
    its own business and changes between versions; this one line for each
    path stands for it and keeps what the library documents of it: the text
    is empty exactly when no difference is found. *)
Definition newline : string := String (ascii_of_nat 10) EmptyString.

Definition render_step (s : PathStep) : string :=
  match s with
  | MapIndex k => "[" +:+ k +:+ "]"
  | SliceIndex i => "[" +:+ pretty i +:+ "]"
  end.

Definition render_path (p : Path) : string :=
  "root" +:+ foldr (λ s acc, render_step s +:+ acc) "" p +:+ newline.

Definition render (d : list Path) : string :=
  foldr (λ p acc, render_path p +:+ acc) "" d.

(** [callTRFunc] on a call that the library checks.  The library checks
    that a transformer is deterministic on some of its calls, the first
    call of every comparison among them: it runs the function twice on the
    same argument and compares the two results with each other under the
    same options.  Here the function returns the map it was given, so the
    two results are that one map, and comparing it with itself walks all of
    it and runs the transformer on every map inside. *)
Definition checkedCall (m : gmap string value) : gmap string value :=
  let got := GetAtt_transformer m in
  let want := GetAtt_transformer got in
  (compareMap (compareAny (depth (VMap m))) want want).1.2.

(** The comparison of the two roots, of static type
    [map[string]interface{}].  The transformer runs on both; the call on
    [x] is the first call, so it is checked, and [x] is rewritten at every
    depth before anything is compared with [y].  Then a nil map is equal to
    a nil map only, and two maps are compared key by key.  Which later
    calls are checked goes by a counter of the library; on a nil [x] the
    call on [y] is checked too.  Such a check never changes the
    differences found, and what it rewrites beyond the walk is in [y]
    only, since [x] is rewritten through already. *)
Definition compareRoot (x y : document) : list Path * document * document :=
  match x, y with
  | None, None => ([], None, None)
  | Some mx, None => ([[]], Some (checkedCall mx), None)
  | None, Some my => ([[]], None, Some (checkedCall my))
  | Some mx, Some my =>
      let mx1 := checkedCall mx in
      let '(d, mx', my') :=
        compareMap (compareAny (depth (VMap mx1))) mx1 (GetAtt_transformer my) in
      (d, Some mx', Some my')
  end.

(** [cmp.Diff(x, y, trans)]: the report, empty exactly when no difference
    was found, with [x] as the call leaves it and [y] as the walk leaves
    it. *)
Definition Diff (x y : document) : string * document * document :=
  let '(d, x', y') := compareRoot x y in (render d, x', y').

End cmp.

Section Verify.

Variable YAMLToJSON : string → value * option error.

(** The result is the returned error and [source] as the call leaves
    it. *)
Definition VerifyOutput (source : document) (output : string)
  : option error * document :=
  let '(validate, err) := ReadString YAMLToJSON output in
  match err with
  | Some err => (Some err, source)
  | None =>
      let '(diff, source', _) := cmp.Diff source validate in
      if negb (String.eqb diff "")
      then (Some (Errorf ("Semantic difference after formatting:" +:+ cmp.newline) diff),
            source')
      else (None, source')
  end.

End Verify.

(** ** Notions the properties are stated with *)

(** Whether byte [c] occurs in [s]. *)
Fixpoint contains_byte (c : ascii) (s : string) : bool :=
  match s with
  | EmptyString => false
  | String d s' => Ascii.eqb c d || contains_byte c s'
  end.

(** The rewrite of the equivalence check as the specification words it: in
    every mapping, at every depth, the value under "Fn::GetAtt" is replaced
    by the canonicalizer's output.  Two documents differ in attribute-getter
    spelling only when this rewrite makes them equal. *)
Fixpoint canonical (v : value) : value :=
  match v with
  | VSlice l => VSlice (canonical <$> l)
  | VMap m => VMap (GetAtt_transformer (canonical <$> m))
  | _ => v
  end.

Definition canonical_doc (d : document) : document :=
  (λ m : gmap string value, GetAtt_transformer (canonical <$> m)) <$> d.

(** A document as a value: the nil map holds nothing. *)
Definition doc_value (d : document) : value :=
  match d with
  | Some m => VMap m
  | None => VNil
  end.

(** The value a path leads to, if any. *)
Fixpoint lookup_path (p : cmp.Path) (v : value) : option value :=
  match p with
  | [] => Some v
  | cmp.MapIndex k :: p' =>
      match v with
      | VMap m => m !! k ≫= lookup_path p'
      | _ => None
      end
  | cmp.SliceIndex i :: p' =>
      match v with
      | VSlice l => l !! i ≫= lookup_path p'
      | _ => None
      end
  end.

(** Two documents disagree at a path when the path does not lead to the
    same thing in both. *)
Definition disagree_at (p : cmp.Path) (x y : value) : Prop :=
  lookup_path p x ≠ lookup_path p y.

(** One path is on the way to the other. *)
Definition related (p q : cmp.Path) : Prop :=
  p `prefix_of` q ∨ q `prefix_of` p.

(** The two kinds of error of the read operations. *)
Definition input_acquisition (cause e : error) : Prop :=
  e = "Unable to read input: " +:+ cause ∨ e = "Unable to read file: " +:+ cause.

Definition markup_invalid (cause e : error) : Prop :=
  e = "Invalid YAML: " +:+ cause.

(** A few texts, in the block style of a template, and a stand-in for the
    converter that knows them. *)
Definition text_flat : string := "Fn::GetAtt: [a, b]".

Definition text_nested : string :=
  "R:" +:+ cmp.newline +:+ "- 1" +:+ cmp.newline +:+ "- Fn::GetAtt: [x, y.z]".

Definition text_scalar : string := "g: 1".

Definition sample_converter (input : string) : value * option error :=
  if String.eqb input "" then (VNil, None)
  else if String.eqb input text_flat then
    (VMap {[ "Fn::GetAtt" := VSlice [VString "a"; VString "b"] ]}, None)
  else if String.eqb input text_nested then
    (VMap {[ "R" := VSlice [VNumber 1;
                            VMap {[ "Fn::GetAtt" := VSlice [VString "x"; VString "y.z"] ]}] ]},
     None)
  else if String.eqb input text_scalar then (VMap {[ "g" := VNumber 1 ]}, None)
  else if String.eqb input "[1]" then (VSlice [VNumber 1], None)
  else (VNil, Some "yaml: line 1: did not find expected node content").

(** Reference documents in the string spelling: at the top level, inside
    a sequence, and inside a mapping. *)
Definition sample_flat : document :=
  Some {[ "Fn::GetAtt" := VString "a.b" ]}.

Definition sample_nested : document :=
  Some {[ "R" := VSlice [VNumber 1; VMap {[ "Fn::GetAtt" := VString "x.y.z" ]}] ]}.

Definition sample_deep : document :=
  Some {[ "g" := VMap {[ "Fn::GetAtt" := VString "a.b" ]} ]}.

(** What the comparison of [x] and [y] is to leave behind, told with the
    rewritten values: no report exactly when they are equal, both values
    still the same up to the rewrite (and rewritten through when nothing
    is reported), every reported path a disagreement, and every
    disagreement on the way to or from a reported path. *)
Definition faithful (x y : value) (r : cmp.outcome) : Prop :=
  (cmp.report r = [] ↔ canonical x = canonical y)
  ∧ canonical (cmp.left r) = canonical x
  ∧ canonical (cmp.right r) = canonical y
  ∧ (cmp.report r = [] → cmp.left r = canonical x ∧ cmp.right r = canonical y)
  ∧ (∀ q, q ∈ cmp.report r → disagree_at q (canonical x) (canonical y))
  ∧ (∀ p, disagree_at p (canonical x) (canonical y) →
       ∃ q, q ∈ cmp.report r ∧ related p q).

(** The per-key results of a map comparison. *)
Abbreviation entries := (gmap string (list cmp.Path * option value * option value)).

(** Name the three components of a result without computing in them. *)
Ltac name_triple H :=
  let H1 := fresh in let H2 := fresh in let H3 := fresh in
  pose proof (f_equal (λ t, t.1.1) H) as H1;
  pose proof (f_equal (λ t, t.1.2) H) as H2;
  pose proof (f_equal (λ t, t.2) H) as H3;
  cbn beta in H1, H2, H3; cbn [fst snd] in H1, H2, H3;
  clear H; subst.


(** ** The rest of the package *)

(** [out[i] = v] with the bounds check of the language: [None] is the
    run-time panic of an index out of range. *)
Definition store (out : list value) (i : nat) (v : value) : option (list value) :=
  if decide (i < List.length out)%nat then Some (<[i := v]> out) else None.

(** The loop of [transformGetAtt] with its stores checked. *)
Definition fill_checked (out : list value) (parts : list string)
  : option (list value) :=
  foldl (λ acc iv, acc ≫= λ o, store o iv.1 (VString iv.2)) (Some out)
    (imap pair parts).

(** [tagUnmarshalerType], a struct without fields, and the one value of it
    the package registers. *)
Record tagUnmarshalerType : Type := MkTagUnmarshalerType { }.

Definition tagUnmarshaler : tagUnmarshalerType := MkTagUnmarshalerType.

(** [yaml.RegisterTagUnmarshaler]: a store into the parser's table of tag
    handlers, which is passed along explicitly. *)
Definition RegisterTagUnmarshaler (tag : string) (u : tagUnmarshalerType)
    (table : gmap string tagUnmarshalerType) : gmap string tagUnmarshalerType :=
  <[tag := u]> table.

(** [init]: every tag of [tags] is registered under its name after "!". *)
Definition init (table : gmap string tagUnmarshalerType)
  : gmap string tagUnmarshalerType :=
  foldl (λ tbl tag, RegisterTagUnmarshaler ("!" +:+ tag) tagUnmarshaler tbl)
    table tags.

(** The key [UnmarshalYAMLTag] derives from a tag name. *)
Definition tag_key (tag : string) : string :=
  if decide (tag = "Ref" ∨ tag = "Condition") then tag else "Fn::" +:+ tag.

(** Whether a value is the nil interface. *)
Definition is_nil (v : value) : bool :=
  match v with
  | VNil => true
  | _ => false
  end.

(** * Properties *)

(** ** The attribute-path canonicalizer *)

Example transformGetAtt_ex1 :
  transformGetAtt (VString "MyResource.Outputs.Value")
  = VSlice [VString "MyResource"; VString "Outputs.Value"].
Proof. reflexivity. Qed.

Example transformGetAtt_ex2 :
  transformGetAtt (VString "MyResource") = VSlice [VString "MyResource"; VNil].
Proof. reflexivity. Qed.

Example transformGetAtt_ex3 :
  transformGetAtt (VString "") = VSlice [VString ""; VNil].
Proof. reflexivity. Qed.

Example UnmarshalYAMLTag_ex1 :
  UnmarshalYAMLTag "GetAtt" (VString "a.b") = {[ "Fn::GetAtt" := VSlice [VString "a"; VString "b"] ]}.
Proof. reflexivity. Qed.

Section split_facts.

Import strings_.

Lemma HasPrefix_dot (s : string) :
  HasPrefix s "." = match s with
                    | String d _ => Ascii.eqb "."%char d
                    | EmptyString => false
                    end.
Proof.
  destruct s as [|d s]; [done|]. cbn [HasPrefix].
  destruct (Ascii.eqb "."%char d); [|done]. by destruct s.
Qed.

Lemma Index_dot_ge (s : string) : (-1 ≤ Index s ".")%Z.
Proof.
  induction s as [|d s IH]; [simpl; lia|].
  cbn [Index]. rewrite HasPrefix_dot.
  destruct (Ascii.eqb "."%char d); [lia|].
  destruct (Z.ltb_spec (Index s ".") 0); lia.
Qed.

Lemma Index_dot_absent (s : string) :
  (Index s "." <? 0)%Z = true ↔ contains_byte "."%char s = false.
Proof.
  induction s as [|d s IH]; [done|].
  cbn [Index contains_byte]. rewrite HasPrefix_dot.
  destruct (Ascii.eqb "."%char d); simpl; [done|].
  pose proof (Index_dot_ge s).
  destruct (Z.ltb_spec (Index s ".") 0) as [Hlt|Hge].
  - split; [intros _; by apply IH|done].
  - split; [intros ?%Z.ltb_lt; lia|].
    intros Hc. apply IH in Hc. done.
Qed.

Lemma Index_dot_present (s : string) :
  (Index s "." <? 0)%Z = false →
  let m := Z.to_nat (Index s ".") in
  s = take_bytes m s +:+ "." +:+ drop_bytes (m + 1) s
  ∧ contains_byte "."%char (take_bytes m s) = false.
Proof.
  induction s as [|d s IH]; [done|].
  cbn [Index]. rewrite HasPrefix_dot.
  destruct (Ascii.eqb_spec "."%char d) as [<-|Hne]; [intros _; by simpl|].
  destruct (Z.ltb_spec (Index s ".") 0) as [Hlt|Hge]; [done|].
  intros _. specialize (IH eq_refl). simpl in IH. destruct IH as [IH1 IH2].
  replace (Z.to_nat (Index s "." + 1)) with (S (Z.to_nat (Index s "."))) by lia.
  cbn [take_bytes drop_bytes Nat.add contains_byte String.append].
  split; [change (?a = String d ?x +:+ ?y) with (a = String d (x +:+ y)); f_equal; exact IH1|].
  rewrite IH2. by destruct (Ascii.eqb_spec "."%char d).
Qed.

Lemma SplitN_dot_2 (s : string) :
  SplitN s "." 2 =
    if (Index s "." <? 0)%Z then [s]
    else [take_bytes (Z.to_nat (Index s ".")) s;
          drop_bytes (Z.to_nat (Index s ".") + 1) s].
Proof.
  unfold SplitN. cbn [Z.eqb String.eqb Z.ltb Z.compare].
  destruct s as [|d s]; [done|].
  replace (Z.of_nat (String.length (String d s)) + 1 <? 2)%Z with false.
  2:{ symmetry. apply Z.ltb_ge. cbn [String.length]. lia. }
  change (Z.to_nat (2 - 1)) with 1. cbn [split_loop].
  by destruct (Index (String d s) "." <? 0)%Z.
Qed.

(** The loop of [transformGetAtt] stores inside [out]: [SplitN] with
    [n = 2] gives at most two parts. *)
Lemma SplitN_dot_2_length (s : string) :
  (1 ≤ List.length (SplitN s "." 2) ≤ 2)%nat.
Proof. rewrite SplitN_dot_2. destruct (_ <? _)%Z; simpl; lia. Qed.

End split_facts.

Lemma transformGetAtt_string (s : string) :
  transformGetAtt (VString s) =
    if (strings_.Index s "." <? 0)%Z then VSlice [VString s; VNil]
    else VSlice [VString (strings_.take_bytes (Z.to_nat (strings_.Index s ".")) s);
                 VString (strings_.drop_bytes (Z.to_nat (strings_.Index s ".") + 1) s)].
Proof.
  unfold transformGetAtt. rewrite SplitN_dot_2.
  by destruct (_ <? _)%Z.
Qed.

(** C3: on a string the canonicalizer cuts at the first "." only and returns
    a sequence of two elements, the part before it (which holds no ".") and
    the whole rest, in which later "." stay; every value that is not a
    string comes back as it is. *)
Theorem transformGetAtt_spec :
  (∀ s : string, ∃ part0 part1,
      transformGetAtt (VString s) = VSlice [VString part0; part1]
      ∧ contains_byte "."%char part0 = false
      ∧ ((part1 = VNil ∧ s = part0)
         ∨ (∃ rest, part1 = VString rest ∧ s = part0 +:+ "." +:+ rest)))
  ∧ (∀ v : value, (∀ s, v ≠ VString s) → transformGetAtt v = v)
  ∧ transformGetAtt (VString "MyResource.Outputs.Value")
    = VSlice [VString "MyResource"; VString "Outputs.Value"].
Proof.
  split; [|split; [|reflexivity]].
  - intros s. rewrite transformGetAtt_string.
    destruct (strings_.Index s "." <? 0)%Z eqn:Hi.
    + exists s, VNil. split; [done|]. split; [by apply Index_dot_absent|by left].
    + destruct (Index_dot_present s Hi) as [Hs Hc].
      eexists _, _. split; [done|]. split; [exact Hc|].
      right. eexists. split; [done|exact Hs].
  - intros v Hv. destruct v; try done. by destruct (Hv s).
Qed.

Lemma transformGetAtt_spec_witness :
  transformGetAtt (VSlice [VString "MyResource"; VString "MyAttr"])
  = VSlice [VString "MyResource"; VString "MyAttr"].
Proof.
  destruct transformGetAtt_spec as (_ & H & _). apply H. intros s. discriminate.
Defined.

(** C9: a string without "." becomes the sequence of the whole string and
    the nil value: the second element is absent, it is not the empty
    string. *)
Theorem transformGetAtt_no_dot (s : string) :
  contains_byte "."%char s = false →
  transformGetAtt (VString s) = VSlice [VString s; VNil].
Proof.
  intros Hc. rewrite transformGetAtt_string.
  apply Index_dot_absent in Hc. by rewrite Hc.
Qed.

Lemma transformGetAtt_no_dot_witness :
  transformGetAtt (VString "MyResource") = VSlice [VString "MyResource"; VNil].
Proof. apply (transformGetAtt_no_dot "MyResource"). reflexivity. Defined.

(** ** The tag normalizer *)

Lemma UnmarshalYAMLTag_GetAtt_key (tag : string) :
  String.eqb ((if String.eqb tag "Ref" || String.eqb tag "Condition"
               then "" else "Fn::") +:+ tag) "Fn::GetAtt"
  = String.eqb tag "GetAtt".
Proof.
  destruct (String.eqb_spec tag "Ref") as [->|_]; [done|].
  destruct (String.eqb_spec tag "Condition") as [->|_]; [done|].
  reflexivity.
Qed.

Lemma transformGetAtt_nil (v : value) : transformGetAtt v = VNil ↔ v = VNil.
Proof. by destruct v. Qed.

(** The normalizer on every input but one: for every tag name, so for each
    of the 17 registered ones, and every value that is not nil under
    "GetAtt", the result is the mapping with one entry, the value (for
    "GetAtt", the canonicalizer's output) under the tag name after "Fn::",
    or under the bare tag name for "Ref" and "Condition". *)
Lemma UnmarshalYAMLTag_entry (tag : string) (v : value) :
  (tag = "GetAtt" → v ≠ VNil) →
  UnmarshalYAMLTag tag v
  = {[ (if decide (tag = "Ref" ∨ tag = "Condition") then tag else "Fn::" +:+ tag)
       := (if decide (tag = "GetAtt") then transformGetAtt v else v) ]}.
Proof.
  intros Hv. unfold UnmarshalYAMLTag. rewrite UnmarshalYAMLTag_GetAtt_key.
  assert (Hk : (if String.eqb tag "Ref" || String.eqb tag "Condition"
                then "" else "Fn::") +:+ tag
               = if decide (tag = "Ref" ∨ tag = "Condition") then tag
                 else "Fn::" +:+ tag).
  { destruct (String.eqb_spec tag "Ref") as [->|H1]; [done|].
    destruct (String.eqb_spec tag "Condition") as [->|H2]; [done|].
    simpl. destruct (decide _) as [[?|?]|_]; done. }
  rewrite Hk. clear Hk. destruct (decide (tag = "GetAtt")) as [->|Hne].
  - rewrite String.eqb_refl.
    destruct (transformGetAtt v) eqn:Ht;
      try (unfold SetMapIndex; cbn [reflect_ValueOf]; by rewrite insert_empty).
    apply -> transformGetAtt_nil in Ht. exfalso. exact (Hv eq_refl Ht).
  - apply String.eqb_neq in Hne. rewrite Hne.
    unfold SetMapIndex. by rewrite insert_empty.
Qed.

Lemma UnmarshalYAMLTag_entry_size (tag : string) (v : value) :
  (tag = "GetAtt" → v ≠ VNil) → size (UnmarshalYAMLTag tag v) = 1.
Proof. intros Hv. rewrite UnmarshalYAMLTag_entry by done. apply map_size_singleton. Qed.

(** The one input left out above, which only a direct call can give: under
    "GetAtt" a nil value gives the empty mapping, because [reflect.ValueOf]
    of the nil interface is the zero Value, for which [SetMapIndex] deletes
    the key.  Under every other tag the nil value is kept under the one
    key. *)
Example UnmarshalYAMLTag_GetAtt_nil :
  UnmarshalYAMLTag "GetAtt" VNil = ∅
  ∧ size (UnmarshalYAMLTag "GetAtt" VNil) = 0
  ∧ UnmarshalYAMLTag "Ref" VNil = {[ "Ref" := VNil ]}
  ∧ UnmarshalYAMLTag "Sub" VNil = {[ "Fn::Sub" := VNil ]}.
Proof. repeat split; reflexivity. Qed.

(** C2: for every tag name, so for each of the 17 registered ones, and every
    value the parser attaches to it (a string for a scalar, a sequence or a
    mapping, never nil under "GetAtt"), the normalizer returns a mapping
    with exactly one entry; its key is the tag name after "Fn::", or the
    bare tag name for "Ref" and "Condition"; its value is the value given,
    except for "GetAtt", where it is the canonicalizer's output. *)
Theorem UnmarshalYAMLTag_spec (tag : string) (v : value) :
  (tag = "GetAtt" → v ≠ VNil) →
  let key := if decide (tag = "Ref" ∨ tag = "Condition") then tag
             else "Fn::" +:+ tag in
  let payload := if decide (tag = "GetAtt") then transformGetAtt v else v in
  UnmarshalYAMLTag tag v = {[ key := payload ]}
  ∧ size (UnmarshalYAMLTag tag v) = 1
  ∧ (∀ k x, UnmarshalYAMLTag tag v !! k = Some x → k = key ∧ x = payload)
  ∧ (tag ∈ tags → key = if decide (tag = "Ref") then tag else "Fn::" +:+ tag).
Proof.
  intros Hv. cbn zeta. rewrite (UnmarshalYAMLTag_entry tag v Hv).
  split; [done|]. split; [apply map_size_singleton|]. split.
  - intros k x Hk. by apply lookup_singleton_Some in Hk as [<- <-].
  - intros Ht. destruct (decide (tag = "Ref")) as [->|Hr]; [done|].
    destruct (decide _) as [[?| ->]|_]; [done| |done].
    exfalso. apply list_elem_of_In in Ht. simpl in Ht.
    repeat (destruct Ht as [Ht|Ht]; [discriminate Ht|]). exact Ht.
Qed.

Lemma UnmarshalYAMLTag_spec_witness :
  UnmarshalYAMLTag "GetAtt" (VString "MyResource.MyAttr")
  = {[ "Fn::GetAtt" := VSlice [VString "MyResource"; VString "MyAttr"] ]}
  ∧ UnmarshalYAMLTag "Ref" (VString "MyParam") = {[ "Ref" := VString "MyParam" ]}.
Proof.
  split.
  - apply (UnmarshalYAMLTag_spec "GetAtt" (VString "MyResource.MyAttr")).
    intros _. discriminate.
  - apply (UnmarshalYAMLTag_spec "Ref" (VString "MyParam")).
    intros H. discriminate H.
Defined.

(** ** The read operations *)

Section Read_facts.

Variable YAMLToJSON : string → value * option error.

Lemma ReadString_cases (input : string) :
  match YAMLToJSON input with
  | (_, Some cause) =>
      ReadString YAMLToJSON input = (None, Some ("Invalid YAML: " +:+ cause))
  | (parsed, None) =>
      match json_Unmarshal parsed None with
      | (_, Some cause) =>
          ReadString YAMLToJSON input = (None, Some ("Invalid YAML: " +:+ cause))
      | (output, None) => ReadString YAMLToJSON input = (output, None)
      end
  end.
Proof.
  unfold ReadString. destruct (YAMLToJSON input) as [parsed [cause|]]; [done|].
  by destruct (json_Unmarshal parsed None) as [output [cause|]].
Qed.

(** What an error of a read operation looks like, and three of the
    failures: a stream that fails, a path that does not exist, a text the
    converter rejects. *)
Lemma read_error_shapes :
  (∀ input doc e, ReadString YAMLToJSON input = (doc, Some e) →
     doc = None
     ∧ ∃ cause, markup_invalid cause e
         ∧ ((YAMLToJSON input).2 = Some cause
            ∨ ((YAMLToJSON input).2 = None
               ∧ (json_Unmarshal (YAMLToJSON input).1 None).2 = Some cause)))
  ∧ (∀ r doc e, Read YAMLToJSON r = (doc, Some e) →
       doc = None
       ∧ ((∃ cause, (ioutil_ReadAll r).2 = Some cause ∧ input_acquisition cause e)
          ∨ ((ioutil_ReadAll r).2 = None
             ∧ ∃ cause, markup_invalid cause e
                 ∧ ReadString YAMLToJSON (ioutil_ReadAll r).1 = (None, Some e))))
  ∧ (∀ fs fileName doc e, ReadFile YAMLToJSON fs fileName = (doc, Some e) →
       doc = None
       ∧ ((∃ cause, (ioutil_ReadFile fs fileName).2 = Some cause
                    ∧ input_acquisition cause e)
          ∨ ((ioutil_ReadFile fs fileName).2 = None
             ∧ ∃ cause, markup_invalid cause e
                 ∧ ReadString YAMLToJSON (ioutil_ReadFile fs fileName).1
                   = (None, Some e))))
  ∧ (∀ r cause, stream_err r = Some cause →
       Read YAMLToJSON r = (None, Some ("Unable to read input: " +:+ cause)))
  ∧ (∀ (fs : filesystem) fileName, fs !! fileName = None →
       ReadFile YAMLToJSON fs fileName
       = (None, Some ("Unable to read file: " +:+
                      ("open " +:+ fileName +:+ ": no such file or directory"))))
  ∧ (∀ input cause, (YAMLToJSON input).2 = Some cause →
       ReadString YAMLToJSON input = (None, Some ("Invalid YAML: " +:+ cause))).
Proof.
  assert (HRS : ∀ input doc e, ReadString YAMLToJSON input = (doc, Some e) →
     doc = None
     ∧ ∃ cause, markup_invalid cause e
         ∧ ((YAMLToJSON input).2 = Some cause
            ∨ ((YAMLToJSON input).2 = None
               ∧ (json_Unmarshal (YAMLToJSON input).1 None).2 = Some cause))).
  { intros input doc e. pose proof (ReadString_cases input) as Hc.
    destruct (YAMLToJSON input) as [parsed [cause|]]; simpl.
    - rewrite Hc. intros [= <- <-]. split; [done|].
      exists cause. split; [done|by left].
    - destruct (json_Unmarshal parsed None) as [output [cause|]];
        rewrite Hc; [|done].
      intros [= <- <-]. split; [done|].
      exists cause. split; [done|by right]. }
  split; [exact HRS|].
  split; [|split; [|split; [|split]]].
  - intros r doc e. unfold Read.
    destruct (ioutil_ReadAll r) as [data [cause|]]; simpl.
    + intros [= <- <-]. split; [done|]. left. exists cause.
      split; [done|by left].
    + intros Hr. destruct (HRS _ _ _ Hr) as (-> & cause & Hk & _).
      split; [done|]. right. split; [done|]. by exists cause.
  - intros fs fileName doc e. unfold ReadFile.
    destruct (ioutil_ReadFile fs fileName) as [data [cause|]]; simpl.
    + intros [= <- <-]. split; [done|]. left. exists cause.
      split; [done|by right].
    + intros Hr. destruct (HRS _ _ _ Hr) as (-> & cause & Hk & _).
      split; [done|]. right. split; [done|]. by exists cause.
  - intros r cause Hr. unfold Read, ioutil_ReadAll. by rewrite Hr.
  - intros fs fileName Hf. unfold ReadFile, ioutil_ReadFile. by rewrite Hf.
  - intros input cause Hc. pose proof (ReadString_cases input) as Hi.
    destruct (YAMLToJSON input) as [parsed [c|]]; simpl in Hc; [|done].
    by injection Hc as ->.
Qed.

(** C6: the errors of the three read operations.  Whenever one of them
    returns an error the document is nil, never a partial map, and the
    error is of one of two kinds, the cause after a fixed prefix: the
    input could not be acquired ("Unable to read input: ", "Unable to
    read file: "), or the converter or the decoder rejected the content
    ("Invalid YAML: ").  Each failure does give its error: a stream that
    fails, a path that does not exist or cannot be opened or read (the
    message holds the path), a text the converter rejects, and a text the
    decoder rejects, as it does every top level that is neither null nor a
    mapping; and no operation returns an error when none of these
    happens. *)
Theorem read_errors :
  ((∀ input doc e, ReadString YAMLToJSON input = (doc, Some e) →
     doc = None
     ∧ ∃ cause, markup_invalid cause e
         ∧ ((YAMLToJSON input).2 = Some cause
            ∨ ((YAMLToJSON input).2 = None
               ∧ (json_Unmarshal (YAMLToJSON input).1 None).2 = Some cause)))
  ∧ (∀ r doc e, Read YAMLToJSON r = (doc, Some e) →
       doc = None
       ∧ ((∃ cause, (ioutil_ReadAll r).2 = Some cause ∧ input_acquisition cause e)
          ∨ ((ioutil_ReadAll r).2 = None
             ∧ ∃ cause, markup_invalid cause e
                 ∧ ReadString YAMLToJSON (ioutil_ReadAll r).1 = (None, Some e))))
  ∧ (∀ fs fileName doc e, ReadFile YAMLToJSON fs fileName = (doc, Some e) →
       doc = None
       ∧ ((∃ cause, (ioutil_ReadFile fs fileName).2 = Some cause
                    ∧ input_acquisition cause e)
          ∨ ((ioutil_ReadFile fs fileName).2 = None
             ∧ ∃ cause, markup_invalid cause e
                 ∧ ReadString YAMLToJSON (ioutil_ReadFile fs fileName).1
                   = (None, Some e))))
  ∧ (∀ r cause, stream_err r = Some cause →
       Read YAMLToJSON r = (None, Some ("Unable to read input: " +:+ cause)))
  ∧ (∀ (fs : filesystem) fileName, fs !! fileName = None →
       ReadFile YAMLToJSON fs fileName
       = (None, Some ("Unable to read file: " +:+
                      ("open " +:+ fileName +:+ ": no such file or directory"))))
  ∧ (∀ input cause, (YAMLToJSON input).2 = Some cause →
       ReadString YAMLToJSON input = (None, Some ("Invalid YAML: " +:+ cause))))
  ∧ (∀ input parsed cause,
       YAMLToJSON input = (parsed, None) →
       (json_Unmarshal parsed None).2 = Some cause →
       ReadString YAMLToJSON input = (None, Some ("Invalid YAML: " +:+ cause)))
  ∧ (∀ input parsed,
       YAMLToJSON input = (parsed, None) →
       json_kind parsed ≠ "null" → json_kind parsed ≠ "object" →
       ∃ cause, ReadString YAMLToJSON input
                = (None, Some ("Invalid YAML: " +:+ cause)))
  ∧ (∀ (fs : filesystem) fileName,
       (∀ contents, fs !! fileName ≠ Some (Readable contents)) →
       ∃ op cause, (op = "open" ∨ op = "read")
         ∧ ReadFile YAMLToJSON fs fileName
           = (None, Some ("Unable to read file: " +:+
                          (op +:+ " " +:+ fileName +:+ ": " +:+ cause))))
  ∧ (∀ input, (ReadString YAMLToJSON input).2 = None
       ↔ (YAMLToJSON input).2 = None
         ∧ (json_Unmarshal (YAMLToJSON input).1 None).2 = None)
  ∧ (∀ r, (Read YAMLToJSON r).2 = None
       ↔ stream_err r = None ∧ (ReadString YAMLToJSON (stream_data r)).2 = None)
  ∧ (∀ (fs : filesystem) fileName, (ReadFile YAMLToJSON fs fileName).2 = None
       ↔ ∃ contents, fs !! fileName = Some (Readable contents)
                     ∧ (ReadString YAMLToJSON contents).2 = None).
Proof.
  split; [exact read_error_shapes|]. split; [|split; [|split; [|split; [|split]]]].
  - intros input parsed cause Hy Hj.
    pose proof (ReadString_cases input) as Hc. rewrite Hy in Hc.
    destruct (json_Unmarshal parsed None) as [output [c|]]; [|done].
    simpl in Hj. by injection Hj as ->.
  - intros input parsed Hy Hn Ho.
    pose proof (ReadString_cases input) as Hc. rewrite Hy in Hc.
    destruct parsed; try done; eexists; exact Hc.
  - intros fs fileName Hf. unfold ReadFile, ioutil_ReadFile.
    destruct (fs !! fileName) as [[contents|cause|partial cause]|].
    + by destruct (Hf contents).
    + exists "open", cause. split; [by left|done].
    + exists "read", cause. split; [by right|done].
    + exists "open", "no such file or directory". split; [by left|done].
  - intros input. pose proof (ReadString_cases input) as Hc.
    destruct (YAMLToJSON input) as [parsed [c|]]; cbn [fst snd].
    + rewrite Hc. cbn [snd]. split; [done|by intros [? _]].
    + destruct (json_Unmarshal parsed None) as [output [c|]]; rewrite Hc; cbn [snd].
      * split; [done|by intros [_ ?]].
      * done.
  - intros r. unfold Read, ioutil_ReadAll.
    destruct (stream_err r) as [c|]; cbn [snd].
    + split; [done|by intros [? _]].
    + split; [done|by intros [_ ?]].
  - intros fs fileName. unfold ReadFile, ioutil_ReadFile.
    destruct (fs !! fileName) as [[contents|cause|partial cause]|]; cbn [snd].
    + split; [intros H; by exists contents|].
      intros (c & Hc & H). by injection Hc as ->.
    + split; [done|]. by intros (c & Hc & _).
    + split; [done|]. by intros (c & Hc & _).
    + split; [done|]. by intros (c & Hc & _).
Qed.

(** C8: once the bytes have been acquired, [Read] and [ReadFile] return
    what [ReadString] returns on those bytes, document and error alike. *)
Theorem Read_ReadFile_funnel :
  (∀ r, (ioutil_ReadAll r).2 = None →
     Read YAMLToJSON r = ReadString YAMLToJSON (ioutil_ReadAll r).1)
  ∧ (∀ fs fileName, (ioutil_ReadFile fs fileName).2 = None →
       ReadFile YAMLToJSON fs fileName
       = ReadString YAMLToJSON (ioutil_ReadFile fs fileName).1).
Proof.
  split.
  - intros r. unfold Read. by destruct (ioutil_ReadAll r) as [data [cause|]].
  - intros fs fileName. unfold ReadFile.
    by destruct (ioutil_ReadFile fs fileName) as [data [cause|]].
Qed.

(** C10: when the converter turns the input into JSON null, [ReadString]
    returns the nil document and no error; so do [Read] on a stream that
    holds this input and [ReadFile] on a file that holds it. *)
Theorem ReadString_null (input : string) :
  YAMLToJSON input = (VNil, None) →
  ReadString YAMLToJSON input = (None, None)
  ∧ (∀ r, ioutil_ReadAll r = (input, None) → Read YAMLToJSON r = (None, None))
  ∧ (∀ (fs : filesystem) fileName, fs !! fileName = Some (Readable input) →
       ReadFile YAMLToJSON fs fileName = (None, None)).
Proof.
  intros Hnull.
  assert (HRS : ReadString YAMLToJSON input = (None, None)).
  { unfold ReadString. by rewrite Hnull. }
  split; [exact HRS|]. split.
  - intros r Hr. unfold Read. by rewrite Hr.
  - intros fs fileName Hf. unfold ReadFile, ioutil_ReadFile. by rewrite Hf.
Qed.

Lemma VerifyOutput_unparsed (source : document) (output : string) (e : error) :
  (ReadString YAMLToJSON output).2 = Some e →
  VerifyOutput YAMLToJSON source output = (Some e, source).
Proof.
  intros He. unfold VerifyOutput.
  destruct (ReadString YAMLToJSON output) as [validate [e'|]]; [|done].
  simpl in He. by injection He as ->.
Qed.

(** C5: when the candidate does not parse, [VerifyOutput] returns the
    error of the parse, whatever the reference document is, and leaves the
    reference document as it was: nothing is compared or rewritten. *)
Theorem VerifyOutput_parse_failure (source : document) (output : string) (e : error) :
  (ReadString YAMLToJSON output).2 = Some e →
  VerifyOutput YAMLToJSON source output = (Some e, source)
  ∧ ∀ source', (VerifyOutput YAMLToJSON source' output).1 = Some e.
Proof.
  intros He. split; [by apply VerifyOutput_unparsed|].
  intros source'. by rewrite (VerifyOutput_unparsed source' output e He).
Qed.

End Read_facts.

Lemma read_errors_witness :
  ReadString sample_converter "foo: ["
  = (None, Some "Invalid YAML: yaml: line 1: did not find expected node content")
  ∧ ReadFile sample_converter ∅ "missing.yaml"
    = (None, Some "Unable to read file: open missing.yaml: no such file or directory")
  ∧ Read sample_converter (MkReader "" (Some "unexpected EOF"))
    = (None, Some "Unable to read input: unexpected EOF")
  ∧ ReadString sample_converter "[1]"
    = (None, Some "Invalid YAML: json: cannot unmarshal array into Go value of type map[string]interface {}")
  ∧ (∃ op cause, (op = "open" ∨ op = "read")
       ∧ ReadFile sample_converter {[ "dir" := ReadFails "" "is a directory" ]} "dir"
         = (None, Some ("Unable to read file: " +:+
                        (op +:+ " " +:+ "dir" +:+ ": " +:+ cause)))).
Proof.
  destruct (read_errors sample_converter)
    as ((_ & _ & _ & Hr & Hf & Hs) & Hd & _ & Hu & _).
  split; [|split; [|split; [|split]]].
  - apply (Hs "foo: ["). reflexivity.
  - apply (Hf ∅ "missing.yaml"). reflexivity.
  - apply (Hr (MkReader "" (Some "unexpected EOF"))). reflexivity.
  - apply (Hd "[1]" (VSlice [VNumber 1])); reflexivity.
  - apply (Hu {[ "dir" := ReadFails "" "is a directory" ]} "dir").
    intros contents H. vm_compute in H. discriminate H.
Defined.

Lemma Read_ReadFile_funnel_witness :
  Read sample_converter (MkReader text_flat None)
  = ReadString sample_converter text_flat
  ∧ ReadFile sample_converter {[ "t.yaml" := Readable "[1]" ]} "t.yaml"
    = ReadString sample_converter "[1]".
Proof.
  destruct (Read_ReadFile_funnel sample_converter) as [Hr Hf].
  split.
  - apply (Hr (MkReader text_flat None)). reflexivity.
  - exact (Hf {[ "t.yaml" := Readable "[1]" ]} "t.yaml" eq_refl).
Defined.

Lemma ReadString_null_witness :
  ReadString sample_converter "" = (None, None)
  ∧ Read sample_converter (MkReader "" None) = (None, None)
  ∧ ReadFile sample_converter {[ "empty.yaml" := Readable "" ]} "empty.yaml" = (None, None).
Proof.
  destruct (ReadString_null sample_converter "" eq_refl) as (Hs & Hr & Hf).
  split; [exact Hs|]. split.
  - apply Hr. reflexivity.
  - apply Hf. reflexivity.
Defined.

Lemma VerifyOutput_parse_failure_witness :
  VerifyOutput sample_converter (Some {[ "Fn::GetAtt" := VString "a.b" ]}) "foo: ["
  = (Some "Invalid YAML: yaml: line 1: did not find expected node content",
     Some {[ "Fn::GetAtt" := VString "a.b" ]}).
Proof.
  apply (VerifyOutput_parse_failure sample_converter). reflexivity.
Defined.

(** ** The comparison *)

Lemma GetAtt_transformer_lookup (m : gmap string value) (k : string) :
  GetAtt_transformer m !! k
  = (λ v, if String.eqb k "Fn::GetAtt" then transformGetAtt v else v) <$> m !! k.
Proof.
  unfold GetAtt_transformer. rewrite map_lookup_imap.
  by destruct (m !! k).
Qed.

Lemma transformGetAtt_idemp (v : value) :
  transformGetAtt (transformGetAtt v) = transformGetAtt v.
Proof.
  by destruct v.
Qed.

Lemma canonical_transformGetAtt (v : value) :
  canonical (transformGetAtt v) = transformGetAtt (canonical v).
Proof.
  destruct v; try done. simpl canonical at 2. rewrite transformGetAtt_string.
  by destruct (_ <? _)%Z.
Qed.

Lemma GetAtt_transformer_canonical (m : gmap string value) :
  canonical <$> GetAtt_transformer m = GetAtt_transformer (canonical <$> m).
Proof.
  apply map_eq. intros k.
  rewrite lookup_fmap, !GetAtt_transformer_lookup, lookup_fmap.
  destruct (m !! k) as [v|]; [simpl|done].
  destruct (String.eqb k "Fn::GetAtt"); [|done].
  by rewrite canonical_transformGetAtt.
Qed.

Lemma GetAtt_transformer_idemp (m : gmap string value) :
  GetAtt_transformer (GetAtt_transformer m) = GetAtt_transformer m.
Proof.
  apply map_eq. intros k. rewrite !GetAtt_transformer_lookup.
  destruct (m !! k) as [v|]; [simpl|done].
  destruct (String.eqb k "Fn::GetAtt"); [|done].
  by rewrite transformGetAtt_idemp.
Qed.

Lemma canonical_VMap (m : gmap string value) :
  canonical (VMap m) = VMap (canonical <$> GetAtt_transformer m).
Proof. simpl. by rewrite GetAtt_transformer_canonical. Qed.

Lemma depth_slice_elem (x : value) (l : list value) :
  x ∈ l → depth x < depth (VSlice l).
Proof.
  intros Hx. simpl. apply Nat.lt_succ_r.
  apply max_list_elem_of_le. by apply list_elem_of_fmap_2.
Qed.

Lemma depth_map_elem (m : gmap string value) (k : string) (x : value) :
  m !! k = Some x → S (depth x) < depth (VMap m).
Proof.
  intros Hx. simpl. apply ->Nat.succ_lt_mono. apply Nat.lt_succ_r.
  apply max_list_elem_of_le. apply list_elem_of_fmap.
  exists (k, depth x). split; [done|].
  apply elem_of_map_to_list. by rewrite lookup_fmap, Hx.
Qed.

Lemma depth_transformGetAtt (v : value) :
  (depth (transformGetAtt v) ≤ S (depth v))%nat.
Proof.
  destruct v; simpl; try lia. 
  change (depth (transformGetAtt (VString s)) ≤ 1)%nat.
  rewrite transformGetAtt_string.
  destruct (_ <? _)%Z; simpl; lia.
Qed.

Lemma depth_transformed_elem (m : gmap string value) (k : string) (x : value) :
  GetAtt_transformer m !! k = Some x → depth x < depth (VMap m).
Proof.
  rewrite GetAtt_transformer_lookup.
  destruct (m !! k) as [v|] eqn:Hv; [|done]. intros [= <-].
  pose proof (depth_map_elem _ _ _ Hv). pose proof (depth_transformGetAtt v).
  destruct (String.eqb k "Fn::GetAtt"); lia.
Qed.

Lemma related_nil_l (q : cmp.Path) : related [] q.
Proof. left. apply prefix_nil. Qed.

Lemma related_nil_r (p : cmp.Path) : related p [].
Proof. right. apply prefix_nil. Qed.

Lemma related_cons (s : cmp.PathStep) (p q : cmp.Path) :
  related p q → related (s :: p) (s :: q).
Proof. intros [H|H]; [left|right]; by apply prefix_cons. Qed.

Lemma bind_nil_Forall {A B} (f : A → list B) (l : list A) :
  l ≫= f = [] ↔ Forall (λ a, f a = []) l.
Proof.
  induction l as [|a l IH]; simpl.
  - split; [constructor|done].
  - split.
    + intros [Ha Hl]%app_eq_nil. constructor; [done|by apply IH].
    + intros Hf. apply Forall_cons in Hf as [-> Hl]. by apply IH.
Qed.

Lemma faithful_differ_upto (x y x' y' : value) :
  canonical x ≠ canonical y →
  canonical x' = canonical x → canonical y' = canonical y →
  faithful x y (cmp.Outcome [[]] x' y').
Proof.
  intros Hne Hx Hy. repeat split; simpl; try done.
  - intros q ->%list_elem_of_singleton. unfold disagree_at. simpl. congruence.
  - intros p _. exists []. split; [apply list_elem_of_singleton; done|apply related_nil_r].
Qed.

Lemma faithful_differ (x y : value) :
  canonical x ≠ canonical y → faithful x y (cmp.Outcome [[]] x y).
Proof. intros Hne. by apply faithful_differ_upto. Qed.

Lemma faithful_same (x y : value) :
  canonical x = x → canonical y = y → x = y → faithful x y (cmp.Outcome [] x y).
Proof.
  intros Hx Hy ->. repeat split; simpl; try done.
  intros q Hq. by apply elem_of_nil in Hq.
Qed.

Section compare_steps.

Variable rec : value → value → cmp.outcome.

Lemma compareSlice_only_right (i : nat) (y : value) (ly : list value) :
  cmp.compareSlice rec i [] (y :: ly)
  = ((λ j, [cmp.SliceIndex j]) <$> seq i (length (y :: ly)), [], y :: ly).
Proof. reflexivity. Qed.

Lemma compareSlice_only_left (i : nat) (x : value) (lx : list value) :
  cmp.compareSlice rec i (x :: lx) []
  = ((λ j, [cmp.SliceIndex j]) <$> seq i (length (x :: lx)), x :: lx, []).
Proof. reflexivity. Qed.

Lemma compareSlice_both (i : nat) (x y : value) (lx ly : list value) :
  cmp.compareSlice rec i (x :: lx) (y :: ly)
  = (((cons (cmp.SliceIndex i) <$> cmp.report (rec x y))
        ++ (cmp.compareSlice rec (S i) lx ly).1.1)%list,
     cmp.left (rec x y) :: (cmp.compareSlice rec (S i) lx ly).1.2,
     cmp.right (rec x y) :: (cmp.compareSlice rec (S i) lx ly).2).
Proof.
  cbn [cmp.compareSlice].
  by destruct (cmp.compareSlice rec (S i) lx ly) as [[d0 lx0] ly0].
Qed.

Lemma compareSlice_faithful (lx ly : list value) (i : nat)
    (d : list cmp.Path) (lx' ly' : list value) :
  (∀ x, x ∈ lx → ∀ y, faithful x y (rec x y)) →
  cmp.compareSlice rec i lx ly = (d, lx', ly') →
  (d = [] ↔ canonical <$> lx = canonical <$> ly)
  ∧ canonical <$> lx' = canonical <$> lx
  ∧ canonical <$> ly' = canonical <$> ly
  ∧ (d = [] → lx' = canonical <$> lx ∧ ly' = canonical <$> ly)
  ∧ (∀ q, q ∈ d → ∃ j q', q = cmp.SliceIndex (i + j) :: q'
       ∧ ((canonical <$> lx) !! j ≫= lookup_path q')
         ≠ ((canonical <$> ly) !! j ≫= lookup_path q'))
  ∧ (∀ j p', ((canonical <$> lx) !! j ≫= lookup_path p')
             ≠ ((canonical <$> ly) !! j ≫= lookup_path p') →
       ∃ q, q ∈ d ∧ related (cmp.SliceIndex (i + j) :: p') q).
Proof.
  revert ly i d lx' ly'.
  induction lx as [|x lx IH]; intros [|y ly] i d lx' ly' Hrec Heq.
  - injection Heq as <- <- <-. repeat split; try done.
    intros q Hq. by apply elem_of_nil in Hq.
  - rewrite compareSlice_only_right in Heq. name_triple Heq.
    split; [done|]. do 3 (split; [done|]). split.
    + intros q (j0 & -> & Hj)%list_elem_of_fmap.
      apply elem_of_seq in Hj. exists (j0 - i), [].
      replace (i + (j0 - i)) with j0 by lia. split; [done|].
      rewrite !list_lookup_fmap.
      destruct ((y :: ly) !! (j0 - i)) as [v|] eqn:Hv; [by simpl|].
      apply lookup_ge_None in Hv. lia.
    + intros j p' Hne. rewrite !list_lookup_fmap in Hne.
      destruct ((y :: ly) !! j) as [v|] eqn:Hv; [|by simpl in Hne].
      exists [cmp.SliceIndex (i + j)]. split.
      * apply list_elem_of_fmap. exists (i + j). split; [done|].
        apply elem_of_seq. apply lookup_lt_Some in Hv. lia.
      * right. apply prefix_cons, prefix_nil.
  - rewrite compareSlice_only_left in Heq. name_triple Heq.
    split; [done|]. do 3 (split; [done|]). split.
    + intros q (j0 & -> & Hj)%list_elem_of_fmap.
      apply elem_of_seq in Hj. exists (j0 - i), [].
      replace (i + (j0 - i)) with j0 by lia. split; [done|].
      rewrite !list_lookup_fmap.
      destruct ((x :: lx) !! (j0 - i)) as [v|] eqn:Hv; [by simpl|].
      apply lookup_ge_None in Hv. lia.
    + intros j p' Hne. rewrite !list_lookup_fmap in Hne.
      destruct ((x :: lx) !! j) as [v|] eqn:Hv; [|by simpl in Hne].
      exists [cmp.SliceIndex (i + j)]. split.
      * apply list_elem_of_fmap. exists (i + j). split; [done|].
        apply elem_of_seq. apply lookup_lt_Some in Hv. lia.
      * right. apply prefix_cons, prefix_nil.
  - rewrite compareSlice_both in Heq.
    destruct (cmp.compareSlice rec (S i) lx ly) as [[d0 lx0] ly0] eqn:Htl.
    cbn [fst snd] in Heq. name_triple Heq.
    destruct (Hrec x ltac:(left) y) as (Hr1 & Hr2 & Hr3 & Hr4 & Hr5 & Hr6).
    destruct (IH ly (S i) d0 lx0 ly0) as (Ht1 & Ht2 & Ht3 & Ht4 & Ht5 & Ht6);
      [intros; apply Hrec; by right|done|].
    rewrite !fmap_cons.
    assert (Hd : ((cons (cmp.SliceIndex i) <$> cmp.report (rec x y)) ++ d0)%list = []
                 ↔ cmp.report (rec x y) = [] ∧ d0 = []).
    { split.
      - intros [Ha Hb]%app_eq_nil. split; [|done]. by apply fmap_nil_inv in Ha.
      - by intros [-> ->]. }
    split; [|split; [|split; [|split; [|split]]]].
    + rewrite Hd, Hr1, Ht1. split; [by intros [-> ->]|by intros [= -> ->]].
    + by rewrite Hr2, Ht2.
    + by rewrite Hr3, Ht3.
    + intros [Hx Hl]%Hd. destruct (Hr4 Hx) as [-> ->].
      destruct (Ht4 Hl) as [-> ->]. done.
    + intros q [Hq|Hq]%elem_of_app.
      * apply list_elem_of_fmap in Hq as (q0 & -> & Hq0).
        exists 0, q0. rewrite Nat.add_0_r. split; [done|]. simpl.
        apply (Hr5 _ Hq0).
      * destruct (Ht5 _ Hq) as (j & q' & -> & Hne).
        exists (S j), q'. split; [f_equal; f_equal; lia|done].
    + intros [|j] p' Hne.
      * simpl in Hne. destruct (Hr6 p' Hne) as (q0 & Hq0 & Hrel).
        exists (cmp.SliceIndex i :: q0). split.
        -- apply elem_of_app. left. by apply list_elem_of_fmap_2.
        -- rewrite Nat.add_0_r. by apply related_cons.
      * simpl in Hne. destruct (Ht6 j p' Hne) as (q & Hq & Hrel).
        exists q. split; [apply elem_of_app; by right|].
        by replace (i + S j) with (S i + j) by lia.
Qed.


Lemma compareEntry_lookup (mx my : gmap string value) (k : string) :
  (merge (cmp.compareEntry rec) mx my : entries) !! k
  = cmp.compareEntry rec (mx !! k) (my !! k).
Proof. rewrite lookup_merge. by destruct (mx !! k), (my !! k). Qed.

Lemma entries_report_elem (rs : entries) (q : cmp.Path) :
  q ∈ map_to_list rs ≫= cmp.entry_report
  ↔ ∃ k e q', rs !! k = Some e ∧ q = cmp.MapIndex k :: q' ∧ q' ∈ e.1.1.
Proof.
  rewrite list_elem_of_bind. split.
  - intros ([k e] & Hq & He). apply elem_of_map_to_list in He.
    apply list_elem_of_fmap in Hq as (q' & -> & Hq'). by exists k, e, q'.
  - intros (k & e & q' & He & -> & Hq'). exists (k, e). split.
    + by apply list_elem_of_fmap_2.
    + by apply elem_of_map_to_list.
Qed.

Lemma entries_report_nil (rs : entries) :
  map_to_list rs ≫= cmp.entry_report = []
  ↔ ∀ k e, rs !! k = Some e → e.1.1 = [].
Proof.
  rewrite bind_nil_Forall, Forall_forall. split.
  - intros H k e He. apply elem_of_map_to_list in He.
    specialize (H _ He). by apply fmap_nil_inv in H.
  - intros H [k e] He. apply elem_of_map_to_list in He.
    unfold cmp.entry_report. simpl. by rewrite (H _ _ He).
Qed.

Lemma compareMap_faithful (mx my : gmap string value)
    (d : list cmp.Path) (mx' my' : gmap string value) :
  (∀ k x, mx !! k = Some x → ∀ y, faithful x y (rec x y)) →
  cmp.compareMap rec mx my = (d, mx', my') →
  (d = [] ↔ canonical <$> mx = canonical <$> my)
  ∧ canonical <$> mx' = canonical <$> mx
  ∧ canonical <$> my' = canonical <$> my
  ∧ (d = [] → mx' = canonical <$> mx ∧ my' = canonical <$> my)
  ∧ (∀ q, q ∈ d → ∃ k q', q = cmp.MapIndex k :: q'
       ∧ ((canonical <$> mx) !! k ≫= lookup_path q')
         ≠ ((canonical <$> my) !! k ≫= lookup_path q'))
  ∧ (∀ k p', ((canonical <$> mx) !! k ≫= lookup_path p')
             ≠ ((canonical <$> my) !! k ≫= lookup_path p') →
       ∃ q, q ∈ d ∧ related (cmp.MapIndex k :: p') q).
Proof.
  intros Hrec Heq. unfold cmp.compareMap in Heq. name_triple Heq.
  set (rs := merge (cmp.compareEntry rec) mx my : entries).
  assert (Hrs : ∀ k, rs !! k = cmp.compareEntry rec (mx !! k) (my !! k))
    by apply compareEntry_lookup.
  assert (Hnil : map_to_list rs ≫= cmp.entry_report = []
                 ↔ canonical <$> mx = canonical <$> my).
  { rewrite entries_report_nil. split.
    - intros H. apply map_eq. intros k. rewrite !lookup_fmap.
      specialize (H k). rewrite Hrs in H.
      destruct (mx !! k) as [a|] eqn:Ha, (my !! k) as [b|] eqn:Hb; simpl in *.
      + f_equal. apply (Hrec _ _ Ha b). by apply (H _ eq_refl).
      + by specialize (H _ eq_refl).
      + by specialize (H _ eq_refl).
      + done.
    - intros H k e He. rewrite Hrs in He.
      pose proof (f_equal (λ m : gmap string value, m !! k) H) as Hk.
      simpl in Hk. rewrite !lookup_fmap in Hk.
      destruct (mx !! k) as [a|] eqn:Ha, (my !! k) as [b|] eqn:Hb;
        simpl in *; try done.
      injection He as <-. injection Hk as Hk. simpl.
      by apply (Hrec _ _ Ha b). }
  split; [exact Hnil|].
  split; [|split; [|split; [|split]]].
  - apply map_eq. intros k. rewrite !lookup_fmap, lookup_omap, Hrs.
    destruct (mx !! k) as [a|] eqn:Ha, (my !! k) as [b|] eqn:Hb; simpl; try done.
    f_equal. apply (Hrec _ _ Ha b).
  - apply map_eq. intros k. rewrite !lookup_fmap, lookup_omap, Hrs.
    destruct (mx !! k) as [a|] eqn:Ha, (my !! k) as [b|] eqn:Hb; simpl; try done.
    f_equal. apply (Hrec _ _ Ha b).
  - intros Hd. pose proof (proj1 Hnil Hd) as Hc.
    rewrite entries_report_nil in Hd.
    split; apply map_eq; intros k; rewrite lookup_fmap, lookup_omap;
      pose proof (f_equal (λ m : gmap string value, m !! k) Hc) as Hk;
      simpl in Hk; rewrite !lookup_fmap in Hk;
      specialize (Hd k); rewrite Hrs in Hd |- *;
      destruct (mx !! k) as [a|] eqn:Ha, (my !! k) as [b|] eqn:Hb;
      simpl in *; try done;
      f_equal; by apply (Hrec _ _ Ha b), (Hd _ eq_refl).
  - intros q (k & e & q' & He & -> & Hq')%entries_report_elem.
    exists k, q'. split; [done|]. rewrite Hrs in He. rewrite !lookup_fmap.
    destruct (mx !! k) as [a|] eqn:Ha, (my !! k) as [b|] eqn:Hb;
      simpl in *; try done; injection He as <-; simpl in Hq'.
    + by apply (Hrec _ _ Ha b).
    + by apply list_elem_of_singleton in Hq' as ->.
    + by apply list_elem_of_singleton in Hq' as ->.
  - intros k p' Hne. rewrite !lookup_fmap in Hne.
    destruct (mx !! k) as [a|] eqn:Ha, (my !! k) as [b|] eqn:Hb;
      simpl in Hne; try done.
    + destruct (Hrec _ _ Ha b) as (_ & _ & _ & _ & _ & H6).
      destruct (H6 p' Hne) as (q0 & Hq0 & Hrel).
      exists (cmp.MapIndex k :: q0). split; [|by apply related_cons].
      apply entries_report_elem. eexists k, _, q0.
      rewrite Hrs, Ha, Hb. simpl. done.
    + exists [cmp.MapIndex k]. split; [|right; apply prefix_cons, prefix_nil].
      apply entries_report_elem. eexists k, _, [].
      rewrite Hrs, Ha, Hb. simpl. split; [done|]. split; [done|].
      by apply list_elem_of_singleton.
    + exists [cmp.MapIndex k]. split; [|right; apply prefix_cons, prefix_nil].
      apply entries_report_elem. eexists k, _, [].
      rewrite Hrs, Ha, Hb. simpl. split; [done|]. split; [done|].
      by apply list_elem_of_singleton.
Qed.

End compare_steps.

Lemma faithful_slices (lx ly : list value) (d : list cmp.Path) (lx' ly' : list value) :
  (d = [] ↔ canonical <$> lx = canonical <$> ly) →
  canonical <$> lx' = canonical <$> lx →
  canonical <$> ly' = canonical <$> ly →
  (d = [] → lx' = canonical <$> lx ∧ ly' = canonical <$> ly) →
  (∀ q, q ∈ d → ∃ j q', q = cmp.SliceIndex (0 + j) :: q'
     ∧ ((canonical <$> lx) !! j ≫= lookup_path q')
       ≠ ((canonical <$> ly) !! j ≫= lookup_path q')) →
  (∀ j p', ((canonical <$> lx) !! j ≫= lookup_path p')
           ≠ ((canonical <$> ly) !! j ≫= lookup_path p') →
     ∃ q, q ∈ d ∧ related (cmp.SliceIndex (0 + j) :: p') q) →
  faithful (VSlice lx) (VSlice ly) (cmp.Outcome d (VSlice lx') (VSlice ly')).
Proof.
  intros H1 H2 H3 H4 H5 H6. unfold faithful. cbn [cmp.report cmp.left cmp.right canonical].
  split; [|split; [|split; [|split; [|split]]]].
  - rewrite H1. split; [by intros ->|by intros [= ->]].
  - by rewrite H2.
  - by rewrite H3.
  - intros Hd. by destruct (H4 Hd) as [-> ->].
  - intros q Hq. destruct (H5 q Hq) as (j & q' & -> & Hne). exact Hne.
  - intros [|[k|j] p'] Hp.
    + destruct d as [|q d].
      * destruct Hp. f_equal. f_equal. by apply H1.
      * exists q. split; [by left|apply related_nil_l].
    + by destruct Hp.
    + apply (H6 j p'), Hp.
Qed.

Lemma faithful_maps (mx my : gmap string value) (d : list cmp.Path)
    (mx' my' : gmap string value) :
  (d = [] ↔ canonical <$> GetAtt_transformer mx = canonical <$> GetAtt_transformer my) →
  canonical <$> mx' = canonical <$> GetAtt_transformer mx →
  canonical <$> my' = canonical <$> GetAtt_transformer my →
  (d = [] → mx' = canonical <$> GetAtt_transformer mx
            ∧ my' = canonical <$> GetAtt_transformer my) →
  (∀ q, q ∈ d → ∃ k q', q = cmp.MapIndex k :: q'
     ∧ ((canonical <$> GetAtt_transformer mx) !! k ≫= lookup_path q')
       ≠ ((canonical <$> GetAtt_transformer my) !! k ≫= lookup_path q')) →
  (∀ k p', ((canonical <$> GetAtt_transformer mx) !! k ≫= lookup_path p')
           ≠ ((canonical <$> GetAtt_transformer my) !! k ≫= lookup_path p') →
     ∃ q, q ∈ d ∧ related (cmp.MapIndex k :: p') q) →
  faithful (VMap mx) (VMap my) (cmp.Outcome d (VMap mx') (VMap my')).
Proof.
  intros H1 H2 H3 H4 H5 H6. unfold faithful.
  cbn [cmp.report cmp.left cmp.right]. rewrite !canonical_VMap.
  split; [|split; [|split; [|split; [|split]]]].
  - rewrite H1. split; [by intros ->|by intros [= ->]].
  - rewrite !GetAtt_transformer_canonical, H2, GetAtt_transformer_canonical,
      GetAtt_transformer_idemp. done.
  - rewrite !GetAtt_transformer_canonical, H3, GetAtt_transformer_canonical,
      GetAtt_transformer_idemp. done.
  - intros Hd. by destruct (H4 Hd) as [-> ->].
  - intros q Hq. destruct (H5 q Hq) as (k & q' & -> & Hne). exact Hne.
  - intros [|[k|j] p'] Hp.
    + destruct d as [|q d].
      * destruct Hp. f_equal. f_equal. by apply H1.
      * exists q. split; [by left|apply related_nil_l].
    + apply (H6 k p'), Hp.
    + by destruct Hp.
Qed.

(** The comparison is faithful once the bound covers the nesting of [x]. *)
Lemma compareAny_faithful (n : nat) (x y : value) :
  depth x < n → faithful x y (cmp.compareAny n x y).
Proof.
  revert x y. induction n as [|n IH]; intros x y Hn; [lia|].
  destruct x as [|a|a|a|lx|mx], y as [|b|b|b|ly|my]; cbn [cmp.compareAny];
    try (apply faithful_differ; simpl; discriminate).
  - by apply faithful_same.
  - destruct (Bool.eqb a b) eqn:Hab.
    + apply eqb_prop in Hab as ->. by apply faithful_same.
    + apply faithful_differ. simpl. intros [= ->]. by rewrite eqb_reflx in Hab.
  - destruct (Z.eqb_spec a b) as [->|Hab].
    + by apply faithful_same.
    + apply faithful_differ. simpl. congruence.
  - destruct (String.eqb_spec a b) as [->|Hab].
    + by apply faithful_same.
    + apply faithful_differ. simpl. congruence.
  - destruct (cmp.compareSlice (cmp.compareAny n) 0 lx ly) as [[d lx'] ly'] eqn:Heq.
    apply compareSlice_faithful in Heq as (H1 & H2 & H3 & H4 & H5 & H6).
    + by apply faithful_slices.
    + intros x Hx y. apply IH. apply depth_slice_elem in Hx. lia.
  - destruct (cmp.compareMap (cmp.compareAny n) (GetAtt_transformer mx)
                (GetAtt_transformer my)) as [[d mx'] my'] eqn:Heq.
    apply compareMap_faithful in Heq as (H1 & H2 & H3 & H4 & H5 & H6).
    + by apply faithful_maps.
    + intros k x Hx y. apply IH. apply depth_transformed_elem in Hx. lia.
Qed.

Lemma compareSlice_ext (f g : value → value → cmp.outcome) (i : nat) (lx ly : list value) :
  (∀ x, x ∈ lx → ∀ y, f x y = g x y) →
  cmp.compareSlice f i lx ly = cmp.compareSlice g i lx ly.
Proof.
  revert i ly. induction lx as [|x lx IH]; intros i [|y ly] Hfg; try done.
  rewrite !compareSlice_both, IH, Hfg; [done|by left|].
  intros. apply Hfg. by right.
Qed.

Lemma compareMap_ext (f g : value → value → cmp.outcome) (mx my : gmap string value) :
  (∀ k x, mx !! k = Some x → ∀ y, f x y = g x y) →
  cmp.compareMap f mx my = cmp.compareMap g mx my.
Proof.
  intros Hfg. unfold cmp.compareMap.
  assert (H : (merge (cmp.compareEntry f) mx my : entries)
              = merge (cmp.compareEntry g) mx my).
  { apply map_eq. intros k. rewrite !compareEntry_lookup.
    destruct (mx !! k) as [a|] eqn:Ha, (my !! k) as [b|]; simpl; try done.
    by rewrite (Hfg _ _ Ha). }
  by rewrite H.
Qed.

(** The bound does not matter once it covers the nesting of [x]: the
    comparison never stops for want of it. *)
Lemma compareAny_bound (n m : nat) (x y : value) :
  depth x < n → depth x < m → cmp.compareAny n x y = cmp.compareAny m x y.
Proof.
  revert m x y. induction n as [|n IH]; intros [|m] x y Hn Hm; try lia.
  destruct x as [|a|a|a|lx|mx], y as [|b|b|b|ly|my]; try done; cbn [cmp.compareAny].
  - rewrite (compareSlice_ext (cmp.compareAny n) (cmp.compareAny m)); [done|].
    intros x Hx y. apply depth_slice_elem in Hx. apply IH; lia.
  - rewrite (compareMap_ext (cmp.compareAny n) (cmp.compareAny m)); [done|].
    intros k x Hx y. apply depth_transformed_elem in Hx. apply IH; lia.
Qed.

(** Values the rewrite leaves as they are are left as they are by the
    comparison. *)

Lemma fmap_fixed_elem (f : value → value) (l : list value) :
  f <$> l = l → ∀ x, x ∈ l → f x = x.
Proof.
  induction l as [|a l IH]; intros H x Hx; [by apply elem_of_nil in Hx|].
  rewrite fmap_cons in H. injection H as Ha Hl.
  apply elem_of_cons in Hx as [->|Hx]; [done|by apply IH].
Qed.

Lemma canonical_fixed_map (m : gmap string value) :
  GetAtt_transformer (canonical <$> m) = m →
  GetAtt_transformer m = m ∧ ∀ k v, m !! k = Some v → canonical v = v.
Proof.
  intros H.
  assert (Hk : ∀ k v, m !! k = Some v →
            canonical v = v
            ∧ (if String.eqb k "Fn::GetAtt" then transformGetAtt v else v) = v).
  { intros k v Hv.
    pose proof (f_equal (λ m' : gmap string value, m' !! k) H) as Hl.
    cbn beta in Hl. rewrite GetAtt_transformer_lookup, lookup_fmap, Hv in Hl.
    cbn [fmap option_fmap option_map] in Hl. injection Hl as Hl.
    destruct (String.eqb k "Fn::GetAtt"); [|done].
    destruct v; try done. }
  split.
  - apply map_eq. intros k. rewrite GetAtt_transformer_lookup.
    destruct (m !! k) as [v|] eqn:Hv; [|done].
    cbn [fmap option_fmap option_map]. f_equal. by apply (Hk k v).
  - intros k v Hv. by apply (Hk k v).
Qed.

Section left_fixed.

Variable rec : value → value → cmp.outcome.

Lemma compareSlice_left_fixed (lx ly : list value) (i : nat) :
  (∀ x, x ∈ lx → ∀ y, cmp.left (rec x y) = x) →
  (cmp.compareSlice rec i lx ly).1.2 = lx.
Proof.
  revert ly i. induction lx as [|x lx IH]; intros [|y ly] i Hrec; try done.
  rewrite compareSlice_both. cbn [fst snd]. rewrite Hrec by by left.
  f_equal. apply IH. intros. apply Hrec. by right.
Qed.

Lemma compareMap_left_fixed (mx my : gmap string value) :
  (∀ k x, mx !! k = Some x → ∀ y, cmp.left (rec x y) = x) →
  (cmp.compareMap rec mx my).1.2 = mx.
Proof.
  intros Hrec. unfold cmp.compareMap. cbn [fst snd].
  apply map_eq. intros k. rewrite lookup_omap, compareEntry_lookup.
  destruct (mx !! k) as [a|] eqn:Ha, (my !! k) as [b|]; try done.
  cbn [cmp.compareEntry mbind option_bind fst snd]. by rewrite (Hrec _ _ Ha).
Qed.

End left_fixed.

Lemma compareAny_left_fixed (n : nat) (x y : value) :
  canonical x = x → cmp.left (cmp.compareAny n x y) = x.
Proof.
  revert x y. induction n as [|n IH]; intros x y Hx; [done|].
  destruct x as [|a|a|a|lx|mx], y as [|b|b|b|ly|my]; try done; cbn [cmp.compareAny].
  - pose proof (compareSlice_left_fixed (cmp.compareAny n) lx ly 0) as H.
    destruct (cmp.compareSlice (cmp.compareAny n) 0 lx ly) as [[d lx'] ly'].
    cbn [fst snd cmp.left] in *. f_equal. apply H.
    intros x Hin y. apply IH. cbn [canonical] in Hx. injection Hx as Hx.
    by apply (fmap_fixed_elem canonical lx).
  - cbn [canonical] in Hx. injection Hx as Hx.
    apply canonical_fixed_map in Hx as [Hm Hv]. rewrite Hm.
    pose proof (compareMap_left_fixed (cmp.compareAny n) mx (GetAtt_transformer my)) as H.
    destruct (cmp.compareMap (cmp.compareAny n) mx (GetAtt_transformer my))
      as [[d mx'] my'].
    cbn [fst snd cmp.left] in *. f_equal. apply H.
    intros k x Hk y. apply IH. by apply (Hv k).
Qed.


(** The rewrite changes nothing in what it has rewritten. *)
Lemma canonical_idemp (v : value) : canonical (canonical v) = canonical v.
Proof.
  destruct (compareAny_faithful (S (depth v)) v v) as (H1 & H2 & _ & H4 & _); [lia|].
  destruct (H4 (proj2 H1 eq_refl)) as [Hl _]. by rewrite Hl in H2.
Qed.

Lemma fmap_canonical_idemp (m : gmap string value) :
  canonical <$> (canonical <$> m) = canonical <$> m.
Proof.
  apply map_eq. intros k. rewrite !lookup_fmap.
  destruct (m !! k) as [v|]; [|done]. simpl. by rewrite canonical_idemp.
Qed.

(** A checked call rewrites the map at every depth. *)
Lemma checkedCall_spec (m : gmap string value) :
  cmp.checkedCall m = canonical <$> GetAtt_transformer m.
Proof.
  unfold cmp.checkedCall. rewrite GetAtt_transformer_idemp.
  destruct (cmp.compareMap (cmp.compareAny (depth (VMap m))) (GetAtt_transformer m)
              (GetAtt_transformer m)) as [[d a] b] eqn:Heq.
  apply compareMap_faithful in Heq as (H1 & _ & _ & H4 & _).
  - cbn [fst snd]. by destruct (H4 (proj2 H1 eq_refl)).
  - intros k x Hx y. apply compareAny_faithful. by apply depth_transformed_elem in Hx.
Qed.

Lemma checkedCall_canonical (m : gmap string value) :
  canonical (VMap (cmp.checkedCall m)) = canonical (VMap m).
Proof.
  rewrite checkedCall_spec, !canonical_VMap. f_equal.
  rewrite !GetAtt_transformer_canonical.
  by rewrite ?fmap_canonical_idemp, ?GetAtt_transformer_idemp, ?fmap_canonical_idemp.
Qed.

Lemma doc_value_canonical (d : document) :
  doc_value (canonical_doc d) = canonical (doc_value d).
Proof. by destruct d. Qed.

Lemma doc_value_inj (a b : document) : doc_value a = doc_value b → a = b.
Proof. destruct a, b; simpl; congruence. Qed.

Lemma canonical_doc_eq (a b : document) :
  canonical (doc_value a) = canonical (doc_value b) ↔ canonical_doc a = canonical_doc b.
Proof.
  rewrite <- !doc_value_canonical. split; [apply doc_value_inj|by intros ->].
Qed.

Lemma canonical_doc_idemp (d : document) :
  canonical_doc (canonical_doc d) = canonical_doc d.
Proof. apply doc_value_inj. rewrite !doc_value_canonical. apply canonical_idemp. Qed.

Lemma compareRoot_faithful (x y : document) (d : list cmp.Path) (x' y' : document) :
  cmp.compareRoot x y = (d, x', y') →
  faithful (doc_value x) (doc_value y) (cmp.Outcome d (doc_value x') (doc_value y')).
Proof.
  destruct x as [mx|], y as [my|]; cbn [cmp.compareRoot].
  - rewrite checkedCall_spec.
    destruct (cmp.compareMap _ (canonical <$> GetAtt_transformer mx)
                (GetAtt_transformer my)) as [[d0 mx'] my'] eqn:Heq.
    intros H. name_triple H.
    apply compareMap_faithful in Heq as (H1 & H2 & H3 & H4 & H5 & H6).
    + rewrite fmap_canonical_idemp in H1, H2, H4, H5, H6. by apply faithful_maps.
    + intros k x Hx y. apply compareAny_faithful.
      apply depth_map_elem in Hx. lia.
  - intros H. name_triple H. apply faithful_differ_upto; [done| |done].
    apply checkedCall_canonical.
  - intros H. name_triple H. apply faithful_differ_upto; [done|done|].
    apply checkedCall_canonical.
  - intros H. name_triple H. by apply faithful_same.
Qed.

(** Whatever it is compared with, and whatever is found, the first document
    is rewritten at every depth. *)
Lemma compareRoot_left (x y : document) :
  (cmp.compareRoot x y).1.2 = canonical_doc x.
Proof.
  destruct x as [mx|]; [|by destruct y].
  cbn [canonical_doc fmap option_fmap option_map].
  rewrite <- GetAtt_transformer_canonical.
  destruct y as [my|]; cbn [cmp.compareRoot]; rewrite checkedCall_spec; [|done].
  pose proof (compareMap_left_fixed
                (cmp.compareAny (depth (VMap (canonical <$> GetAtt_transformer mx))))
                (canonical <$> GetAtt_transformer mx) (GetAtt_transformer my)) as H.
  destruct (cmp.compareMap _ (canonical <$> GetAtt_transformer mx)
              (GetAtt_transformer my)) as [[d mx'] my'].
  cbn [fst snd] in *. f_equal. apply H.
  intros k v Hk z. apply compareAny_left_fixed.
  rewrite lookup_fmap in Hk.
  destruct (GetAtt_transformer mx !! k) as [a|]; [|done].
  injection Hk as <-. apply canonical_idemp.
Qed.

Lemma render_nil (d : list cmp.Path) : cmp.render d = "" ↔ d = [].
Proof. by destruct d. Qed.

Section Verify_facts.

Variable YAMLToJSON : string → value * option error.

Lemma VerifyOutput_parsed (source validate : document) (output : string) :
  ReadString YAMLToJSON output = (validate, None) →
  VerifyOutput YAMLToJSON source output
  = (if negb (String.eqb (cmp.render (cmp.compareRoot source validate).1.1) "")
     then Some (Errorf ("Semantic difference after formatting:" +:+ cmp.newline)
                  (cmp.render (cmp.compareRoot source validate).1.1))
     else None,
     (cmp.compareRoot source validate).1.2).
Proof.
  intros Hr. unfold VerifyOutput, cmp.Diff. rewrite Hr.
  destruct (cmp.compareRoot source validate) as [[d x'] y']. cbn [fst snd].
  by destruct (negb _).
Qed.

Lemma ReadString_no_error (output : string) :
  (ReadString YAMLToJSON output).2 = None →
  ∃ validate, ReadString YAMLToJSON output = (validate, None).
Proof. destruct (ReadString YAMLToJSON output) as [v e]. simpl. intros ->. by exists v. Qed.

(** C1: when the candidate parses to a document that differs from the
    reference in attribute-getter spelling only, at whatever depth, inside
    sequences and nested mappings alike, [VerifyOutput] succeeds: the
    comparison reports nothing, and it leaves both documents rewritten at
    every depth. *)
Theorem VerifyOutput_GetAtt_spelling (source validate : document) (output : string) :
  ReadString YAMLToJSON output = (validate, None) →
  canonical_doc source = canonical_doc validate →
  VerifyOutput YAMLToJSON source output = (None, canonical_doc source)
  ∧ cmp.Diff source validate = ("", canonical_doc source, canonical_doc validate).
Proof.
  intros Hr Hc. rewrite (VerifyOutput_parsed _ _ _ Hr). unfold cmp.Diff.
  destruct (cmp.compareRoot source validate) as [[d x'] y'] eqn:Heq.
  apply compareRoot_faithful in Heq as (H1 & _ & _ & H4 & _).
  cbn [cmp.report cmp.left cmp.right fst snd] in *.
  assert (Hd : d = []) by by apply H1, canonical_doc_eq.
  destruct (H4 Hd) as [Hx Hy]. rewrite <- doc_value_canonical in Hx, Hy.
  apply doc_value_inj in Hx as ->. apply doc_value_inj in Hy as ->.
  by rewrite Hd.
Qed.

(** C7, as amended: [VerifyOutput] rewrites the document it is given, not
    a copy.  The reference document is as it was when the candidate does
    not parse.  When the candidate parses, the reference document has been
    rewritten at every depth, whatever the check finds: every string under
    "Fn::GetAtt" has become the two-element sequence, so that the document
    is as it was only if it held no such string. *)
Theorem VerifyOutput_source_after (source : document) (output : string) :
  let r := VerifyOutput YAMLToJSON source output in
  ((ReadString YAMLToJSON output).2 ≠ None → r.2 = source)
  ∧ ((ReadString YAMLToJSON output).2 = None → r.2 = canonical_doc source)
  ∧ canonical_doc r.2 = canonical_doc source
  ∧ (r.2 = source
     ↔ (ReadString YAMLToJSON output).2 ≠ None ∨ canonical_doc source = source)
  ∧ (∀ m s, (ReadString YAMLToJSON output).2 = None →
       source = Some m → m !! "Fn::GetAtt" = Some (VString s) →
       ∃ m', r.2 = Some m'
             ∧ m' !! "Fn::GetAtt" = Some (transformGetAtt (VString s))).
Proof.
  cbn zeta.
  destruct (ReadString YAMLToJSON output) as [validate [e|]] eqn:Hr.
  - rewrite (VerifyOutput_unparsed YAMLToJSON source output e) by by rewrite Hr.
    cbn [fst snd]. repeat split; try done. intros _. by left.
  - rewrite (VerifyOutput_parsed _ _ _ Hr). cbn [fst snd].
    rewrite compareRoot_left.
    split; [done|]. split; [done|]. split; [|split].
    + apply canonical_doc_idemp.
    + split; [intros H; by right|intros [H|H]; [by destruct H|done]].
    + intros m s _ -> Hm. eexists. split; [done|].
      rewrite GetAtt_transformer_lookup, lookup_fmap, Hm, String.eqb_refl.
      done.
Qed.

End Verify_facts.

Lemma VerifyOutput_GetAtt_spelling_witness :
  VerifyOutput sample_converter sample_nested text_nested
  = (None, canonical_doc sample_nested).
Proof.
  refine (proj1 (VerifyOutput_GetAtt_spelling sample_converter sample_nested
                   (Some {[ "R" := VSlice [VNumber 1;
                              VMap {[ "Fn::GetAtt" := VSlice [VString "x"; VString "y.z"] ]}] ]})
                   text_nested _ _)).
  - reflexivity.
  - vm_compute. reflexivity.
Defined.

(** C7: the claim as stated fails: after a check of a text that parses the
    reference document holds the sequence where it held the string. *)
Lemma VerifyOutput_rewrites_source :
  (VerifyOutput sample_converter sample_flat text_flat).2 ≠ sample_flat.
Proof. vm_compute. discriminate. Qed.

Lemma VerifyOutput_source_after_witness :
  (VerifyOutput sample_converter sample_flat text_flat).2
  = canonical_doc sample_flat
  ∧ (VerifyOutput sample_converter sample_deep text_scalar).2
    = canonical_doc sample_deep
  ∧ (VerifyOutput sample_converter sample_flat "foo: [").2 = sample_flat.
Proof.
  split; [|split].
  - destruct (VerifyOutput_source_after sample_converter sample_flat text_flat)
      as (_ & H & _).
    apply H. reflexivity.
  - destruct (VerifyOutput_source_after sample_converter sample_deep text_scalar)
      as (_ & H & _).
    apply H. reflexivity.
  - destruct (VerifyOutput_source_after sample_converter sample_flat "foo: [")
      as (H & _).
    apply H. discriminate.
Defined.

(** A difference found below the top level: the check fails, and the
    reference document has been rewritten below the place of the difference
    all the same. *)
Example VerifyOutput_deep_failure :
  (VerifyOutput sample_converter sample_deep text_scalar).1 ≠ None
  ∧ (VerifyOutput sample_converter sample_deep text_scalar).2
    = Some {[ "g" := VMap {[ "Fn::GetAtt" := VSlice [VString "a"; VString "b"] ]} ]}.
Proof. split; [vm_compute; discriminate|vm_compute; reflexivity]. Qed.

(** * Further properties of the package *)

(** ** The two spellings of an attribute path *)

Lemma take_bytes_app (a x : string) :
  strings_.take_bytes (String.length a) (a +:+ x) = a.
Proof. induction a as [|d a IH]; [by destruct x|]. simpl. by rewrite IH. Qed.

Lemma drop_bytes_app (a x : string) (n : nat) :
  strings_.drop_bytes (String.length a + n) (a +:+ x) = strings_.drop_bytes n x.
Proof. induction a as [|d a IH]; [done|]. simpl. by rewrite IH. Qed.

Lemma Index_dot_join (a b : string) :
  contains_byte "."%char a = false →
  strings_.Index (a +:+ "." +:+ b) "." = Z.of_nat (String.length a).
Proof.
  induction a as [|d a IH]; intros Hc.
  - change ("" +:+ "." +:+ b) with (String "."%char b).
    cbn [strings_.Index]. by rewrite HasPrefix_dot, Ascii.eqb_refl.
  - cbn [contains_byte] in Hc. apply orb_false_iff in Hc as [Hd Ha].
    change (String d a +:+ "." +:+ b) with (String d (a +:+ "." +:+ b)).
    cbn [strings_.Index]. rewrite HasPrefix_dot, Hd, (IH Ha).
    destruct (Z.ltb_spec (Z.of_nat (String.length a)) 0); [lia|].
    cbn [String.length]. lia.
Qed.

Lemma transformGetAtt_join (a b : string) :
  contains_byte "."%char a = false →
  transformGetAtt (VString (a +:+ "." +:+ b)) = VSlice [VString a; VString b].
Proof.
  intros Hc. rewrite transformGetAtt_string, (Index_dot_join a b Hc).
  destruct (Z.ltb_spec (Z.of_nat (String.length a)) 0); [lia|].
  by rewrite Nat2Z.id, take_bytes_app, drop_bytes_app.
Qed.

(** X1: the string spelling "resource.attribute" and the list spelling
    [resource, attribute] of an attribute path, for a resource name without
    ".", are normalized to the same thing, by the canonicalizer and by the
    tag normalizer under "GetAtt". *)
Theorem GetAtt_spellings_agree (a b : string) :
  contains_byte "."%char a = false →
  transformGetAtt (VString (a +:+ "." +:+ b))
  = transformGetAtt (VSlice [VString a; VString b])
  ∧ UnmarshalYAMLTag "GetAtt" (VString (a +:+ "." +:+ b))
    = UnmarshalYAMLTag "GetAtt" (VSlice [VString a; VString b])
  ∧ UnmarshalYAMLTag "GetAtt" (VString (a +:+ "." +:+ b))
    = {[ "Fn::GetAtt" := VSlice [VString a; VString b] ]}.
Proof.
  intros Hc. pose proof (transformGetAtt_join a b Hc) as Hj.
  split; [exact Hj|].
  assert (Hu : UnmarshalYAMLTag "GetAtt" (VString (a +:+ "." +:+ b))
               = {[ "Fn::GetAtt" := VSlice [VString a; VString b] ]}).
  { rewrite UnmarshalYAMLTag_entry by done. by rewrite Hj. }
  split; [|exact Hu]. rewrite Hu. reflexivity.
Qed.

Lemma GetAtt_spellings_agree_witness :
  UnmarshalYAMLTag "GetAtt" (VString "MyResource.MyAttr")
  = UnmarshalYAMLTag "GetAtt" (VSlice [VString "MyResource"; VString "MyAttr"]).
Proof.
  exact (proj1 (proj2 (GetAtt_spellings_agree "MyResource" "MyAttr" eq_refl))).
Defined.

(** X2: the canonicalizer never returns a string, and what it returns it
    leaves as it is when applied again. *)
Theorem transformGetAtt_stable (v : value) :
  transformGetAtt (transformGetAtt v) = transformGetAtt v
  ∧ ∀ s, transformGetAtt v ≠ VString s.
Proof.
  split; [by destruct v|]. intros s. by destruct v.
Qed.

(** ** The stores of the canonicalizer's loop *)

Lemma store_length (out out' : list value) (i : nat) (v : value) :
  store out i v = Some out' → List.length out' = List.length out.
Proof.
  unfold store. destruct (decide _); [|done]. intros [= <-]. apply length_insert.
Qed.

Lemma foldl_store_None (l : list (nat * string)) :
  foldl (λ acc iv, acc ≫= λ o, store o iv.1 (VString iv.2)) None l = None.
Proof. by induction l. Qed.

Lemma fill_checked_from (parts : list string) (i : nat) (out : list value) :
  foldl (λ acc iv, acc ≫= λ o, store o iv.1 (VString iv.2)) (Some out)
    (imap (λ j, pair (i + j)%nat) parts)
  = if decide (parts = [] ∨ (i + List.length parts ≤ List.length out)%nat)
    then Some (foldl (λ acc iv, <[iv.1 := VString iv.2]> acc) out
                 (imap (λ j, pair (i + j)%nat) parts))
    else None.
Proof.
  revert i out. induction parts as [|x parts IH]; intros i out.
  - cbn [imap foldl]. by rewrite decide_True by by left.
  - cbn [imap foldl mbind option_bind fst snd]. rewrite Nat.add_0_r.
    unfold store at 2. destruct (decide (i < List.length out)%nat) as [Hi|Hi].
    + cbn [mbind option_bind].
      rewrite (imap_ext _ (λ j, pair (S i + j)%nat) parts)
        by (intros; simpl; f_equal; lia).
      rewrite IH, length_insert. cbn [List.length].
      destruct parts as [|y parts].
      * rewrite !decide_True; [done|right; simpl; lia|by left].
      * destruct (decide (_ ∨ (S i + _ ≤ _)%nat)) as [[?|H1]|H1]; [done| |].
        -- rewrite decide_True; [done|]. right. simpl in *. lia.
        -- rewrite decide_False; [done|]. intros [?|H2]; [done|].
           apply H1. right. simpl in *. lia.
    + cbn [mbind option_bind]. rewrite foldl_store_None.
      rewrite decide_False; [done|]. intros [?|H2]; [done|].
      simpl in H2. lia.
Qed.

Lemma fill_checked_spec (out : list value) (parts : list string) :
  fill_checked out parts
  = if decide (List.length parts ≤ List.length out)%nat
    then Some (fill out parts) else None.
Proof.
  unfold fill_checked, fill.
  change (imap pair parts) with (imap (λ j, pair (0 + j)%nat) parts).
  rewrite fill_checked_from. cbn [Nat.add]. destruct parts as [|x parts].
  - rewrite !decide_True; [done|simpl; lia|by left].
  - destruct (decide (_ ∨ _)) as [[?|H1]|H1]; [done| |].
    + by rewrite decide_True.
    + rewrite decide_False; [done|]. intros H2. apply H1. by right.
Qed.

(** X3: the loop of the canonicalizer never stores outside the two-element
    sequence it has made: with every store checked as the language checks
    it, the loop ends without a panic, for every string, and with the
    sequence the canonicalizer returns. *)
Theorem transformGetAtt_stores_in_range (s : string) :
  ∃ out, fill_checked (replicate 2 VNil) (strings_.SplitN s "." 2) = Some out
         ∧ transformGetAtt (VString s) = VSlice out
         ∧ List.length out = 2%nat.
Proof.
  pose proof (SplitN_dot_2_length s) as Hl.
  exists (fill (replicate 2 VNil) (strings_.SplitN s "." 2)).
  rewrite fill_checked_spec. rewrite decide_True by (simpl; lia).
  split; [done|]. split; [done|].
  rewrite SplitN_dot_2. by destruct (_ <? _)%Z.
Qed.

(** ** The tag normalizer *)

Lemma UnmarshalYAMLTag_cases (tag : string) (v : value) :
  UnmarshalYAMLTag tag v
  = if String.eqb tag "GetAtt" && is_nil v then ∅
    else {[ tag_key tag := (if decide (tag = "GetAtt") then transformGetAtt v else v) ]}.
Proof.
  destruct (String.eqb_spec tag "GetAtt") as [->|Hne]; cbn [andb].
  - destruct (is_nil v) eqn:Hv; [by destruct v|].
    apply UnmarshalYAMLTag_entry. intros _ ->. done.
  - by apply UnmarshalYAMLTag_entry.
Qed.

Lemma tag_key_inj (t1 t2 : string) : tag_key t1 = tag_key t2 → t1 = t2.
Proof.
  unfold tag_key.
  destruct (decide (t1 = "Ref" ∨ t1 = "Condition")) as [[->| ->]|_],
           (decide (t2 = "Ref" ∨ t2 = "Condition")) as [[->| ->]|_];
    cbn; try done; try discriminate. intros H. by injection H.
Qed.

(** X4: two different tag names never give the same key: a key of a
    normalized mapping tells the tag it came from. *)
Theorem UnmarshalYAMLTag_key_tells_tag (t1 t2 : string) (v1 v2 : value) (k : string) :
  is_Some (UnmarshalYAMLTag t1 v1 !! k) →
  is_Some (UnmarshalYAMLTag t2 v2 !! k) →
  t1 = t2 ∧ k = tag_key t1.
Proof.
  rewrite !UnmarshalYAMLTag_cases.
  destruct (String.eqb t1 "GetAtt" && is_nil v1); [by intros [? ?]|].
  destruct (String.eqb t2 "GetAtt" && is_nil v2); [by intros _ [? ?]|].
  intros [x1 H1] [x2 H2].
  apply lookup_singleton_Some in H1 as [<- _].
  apply lookup_singleton_Some in H2 as [H2 _].
  split; [|done]. by apply tag_key_inj.
Qed.

Lemma UnmarshalYAMLTag_key_tells_tag_witness :
  "Sub" = "Sub" ∧ "Fn::Sub" = tag_key "Sub".
Proof.
  apply (UnmarshalYAMLTag_key_tells_tag "Sub" "Sub" (VString "a") VNil "Fn::Sub");
    by eexists.
Defined.

(** X5: the normalized mapping has one entry, except for the nil value
    under "GetAtt", the one input for which it is empty. *)
Theorem UnmarshalYAMLTag_size (tag : string) (v : value) :
  size (UnmarshalYAMLTag tag v)
  = if String.eqb tag "GetAtt" && is_nil v then 0%nat else 1%nat.
Proof.
  rewrite UnmarshalYAMLTag_cases. destruct (_ && _); [done|].
  apply map_size_singleton.
Qed.

(** X6: the rewrite of the equivalence check changes nothing in a mapping
    the tag normalizer has made: under "GetAtt" the value is in the list
    spelling already, and no other tag gives the key "Fn::GetAtt". *)
Theorem GetAtt_transformer_UnmarshalYAMLTag (tag : string) (v : value) :
  GetAtt_transformer (UnmarshalYAMLTag tag v) = UnmarshalYAMLTag tag v.
Proof.
  apply map_eq. intros k. rewrite GetAtt_transformer_lookup, UnmarshalYAMLTag_cases.
  destruct (String.eqb tag "GetAtt" && is_nil v); [done|].
  destruct (decide (k = tag_key tag)) as [->|Hk].
  - rewrite lookup_singleton_eq. cbn [fmap option_fmap option_map]. f_equal.
    destruct (String.eqb_spec (tag_key tag) "Fn::GetAtt") as [He|_]; [|done].
    assert (tag = "GetAtt") as -> by (apply tag_key_inj; by rewrite He).
    rewrite decide_True by done. by destruct v.
  - by rewrite lookup_singleton_ne.
Qed.

(** ** Registration *)

Lemma register_all_lookup (l : list string) (tbl : gmap string tagUnmarshalerType)
    (name : string) :
  foldl (λ tbl tag, RegisterTagUnmarshaler ("!" +:+ tag) tagUnmarshaler tbl) tbl l
    !! name
  = if decide (name ∈ (String.append "!" <$> l)) then Some tagUnmarshaler
    else tbl !! name.
Proof.
  revert tbl. induction l as [|t l IH]; intros tbl.
  - cbn [foldl]. destruct (decide _) as [H|_]; [|done].
    rewrite fmap_nil in H. by apply elem_of_nil in H.
  - cbn [foldl]. rewrite IH. unfold RegisterTagUnmarshaler. rewrite fmap_cons.
    destruct (decide (name ∈ String.append "!" <$> l)) as [Hin|Hin].
    + destruct (decide _) as [_|H]; [done|]. destruct H. by right.
    + destruct (decide (name = "!" +:+ t)) as [->|Hne].
      * rewrite lookup_insert_eq. destruct (decide _) as [_|H]; [done|].
        destruct H. by left.
      * rewrite lookup_insert_ne by done.
        destruct (decide _) as [H|_]; [|done].
        by apply elem_of_cons in H as [?|?].
Qed.

(** X7: [init] registers the handler under "!" followed by each of the 17
    tag names and under no other name, whatever was registered under other
    names stays, and running it again changes nothing. *)
Theorem init_registers (tbl : gmap string tagUnmarshalerType) :
  (∀ tag, tag ∈ tags → init tbl !! ("!" +:+ tag) = Some tagUnmarshaler)
  ∧ (∀ name, (∀ tag, tag ∈ tags → name ≠ "!" +:+ tag) → init tbl !! name = tbl !! name)
  ∧ init (init tbl) = init tbl
  ∧ size (init ∅) = 17%nat.
Proof.
  split; [|split; [|split]].
  - intros tag Ht. unfold init. rewrite register_all_lookup.
    destruct (decide _) as [_|H]; [done|]. destruct H.
    by apply list_elem_of_fmap_2.
  - intros name Hn. unfold init. rewrite register_all_lookup.
    destruct (decide _) as [H|_]; [|done].
    apply list_elem_of_fmap in H as (t & -> & Ht). by destruct (Hn t Ht).
  - apply map_eq. intros name. unfold init. rewrite !register_all_lookup.
    by destruct (decide _).
  - by vm_compute.
Qed.

Lemma init_registers_witness :
  init ∅ !! "!GetAtt" = Some tagUnmarshaler ∧ init ∅ !! "!Condition" = None.
Proof.
  destruct (init_registers ∅) as (H1 & H2 & _). split.
  - apply (H1 "GetAtt"). unfold tags. repeat (first [by left|right]).
  - rewrite (H2 "!Condition"); [done|].
    intros tag Ht. apply list_elem_of_In in Ht. simpl in Ht.
    repeat (destruct Ht as [<-|Ht]; [discriminate|]). destruct Ht.
Defined.

(** ** Reading, further *)

Section Read_more.

Variable YAMLToJSON : string → value * option error.

(** X8: [ReadString] returns a document that is not nil exactly when the
    converter succeeds with a mapping, and the document is that mapping,
    entry for entry. *)
Theorem ReadString_mapping (input : string) (m : gmap string value) :
  ReadString YAMLToJSON input = (Some m, None)
  ↔ YAMLToJSON input = (VMap m, None).
Proof.
  pose proof (ReadString_cases YAMLToJSON input) as Hc. split.
  - intros Hr. destruct (YAMLToJSON input) as [parsed [c|]]; [congruence|].
    destruct parsed; cbn [json_Unmarshal] in Hc; try congruence.
    rewrite Hr in Hc. injection Hc as ->. cbn [default].
    by rewrite (right_id_L ∅ (∪)).
  - intros Hy. rewrite Hy in Hc. cbn [json_Unmarshal default] in Hc.
    by rewrite (right_id_L ∅ (∪)) in Hc.
Qed.

(** X9: a text whose top level is not a mapping (a sequence or a scalar) is
    rejected as invalid, with the decoder's type error as the cause and the
    nil document. *)
Theorem ReadString_not_mapping (input : string) (parsed : value) :
  YAMLToJSON input = (parsed, None) →
  json_kind parsed ≠ "null" → json_kind parsed ≠ "object" →
  ReadString YAMLToJSON input
  = (None, Some ("Invalid YAML: " +:+
                 ("json: cannot unmarshal " +:+ json_kind parsed
                  +:+ " into Go value of type map[string]interface {}"))).
Proof.
  intros Hy Hn Ho. pose proof (ReadString_cases YAMLToJSON input) as Hc.
  rewrite Hy in Hc. by destruct parsed.
Qed.

End Read_more.

Lemma ReadString_not_mapping_witness :
  ReadString sample_converter "[1]"
  = (None, Some "Invalid YAML: json: cannot unmarshal array into Go value of type map[string]interface {}").
Proof.
  apply (ReadString_not_mapping sample_converter "[1]" (VSlice [VNumber 1]));
    [reflexivity|discriminate|discriminate].
Defined.

(** ** The transformer of the equivalence check *)

(** X10: the transformer keeps the keys of the map it is given, changes no
    value but the one under "Fn::GetAtt", which becomes the canonicalizer's
    output, and changes nothing when it is run again. *)
Theorem GetAtt_transformer_keeps (m : gmap string value) :
  dom (GetAtt_transformer m) = dom m
  ∧ (∀ k, k ≠ "Fn::GetAtt" → GetAtt_transformer m !! k = m !! k)
  ∧ GetAtt_transformer m !! "Fn::GetAtt" = transformGetAtt <$> m !! "Fn::GetAtt"
  ∧ GetAtt_transformer (GetAtt_transformer m) = GetAtt_transformer m.
Proof.
  split; [|split; [|split]].
  - apply set_eq. intros k. rewrite !elem_of_dom, GetAtt_transformer_lookup.
    apply fmap_is_Some.
  - intros k Hk. rewrite GetAtt_transformer_lookup.
    apply String.eqb_neq in Hk. rewrite Hk. by destruct (m !! k).
  - by rewrite GetAtt_transformer_lookup.
  - apply GetAtt_transformer_idemp.
Qed.

Lemma GetAtt_transformer_keeps_witness :
  GetAtt_transformer {[ "Ref" := VString "a.b" ]} !! "Ref" = Some (VString "a.b").
Proof.
  destruct (GetAtt_transformer_keeps {[ "Ref" := VString "a.b" ]}) as (_ & H & _).
  rewrite (H "Ref"); [reflexivity|discriminate].
Defined.

(** ** The equivalence check, further *)

Lemma canonical_doc_nil (d : document) : canonical_doc d = None ↔ d = None.
Proof. by destruct d. Qed.

Section Verify_more.

Variable YAMLToJSON : string → value * option error.

Lemma VerifyOutput_facts (source validate : document) (output : string) :
  ReadString YAMLToJSON output = (validate, None) →
  ((VerifyOutput YAMLToJSON source output).1 = None
   ↔ canonical_doc source = canonical_doc validate)
  ∧ canonical_doc (VerifyOutput YAMLToJSON source output).2 = canonical_doc source
  ∧ ((VerifyOutput YAMLToJSON source output).1 = None →
     (VerifyOutput YAMLToJSON source output).2 = canonical_doc source).
Proof.
  intros Hr. rewrite (VerifyOutput_parsed _ _ _ _ Hr). cbn [fst snd].
  destruct (cmp.compareRoot source validate) as [[d x'] y'] eqn:Heq.
  apply compareRoot_faithful in Heq as (H1 & H2 & _ & H4 & _).
  cbn [cmp.report cmp.left cmp.right fst snd] in *.
  assert (Hv : (if negb (String.eqb (cmp.render d) "")
                then Some (Errorf ("Semantic difference after formatting:" +:+ cmp.newline)
                             (cmp.render d))
                else None) = None ↔ d = []).
  { rewrite <- render_nil, <- String.eqb_eq.
    by destruct (String.eqb (cmp.render d) ""). }
  split; [|split].
  - by rewrite Hv, H1, canonical_doc_eq.
  - by apply canonical_doc_eq.
  - intros Hd%Hv. destruct (H4 Hd) as [Hx _].
    rewrite <- doc_value_canonical in Hx. by apply doc_value_inj in Hx.
Qed.

(** X11: the verdict does not depend on which of two documents is the
    reference and which the candidate: with a text for each, checking the
    first against the text of the second succeeds exactly when checking the
    second against the text of the first does. *)
Theorem VerifyOutput_symmetric (x y : document) (text_x text_y : string) :
  ReadString YAMLToJSON text_x = (x, None) →
  ReadString YAMLToJSON text_y = (y, None) →
  (VerifyOutput YAMLToJSON x text_y).1 = None
  ↔ (VerifyOutput YAMLToJSON y text_x).1 = None.
Proof.
  intros Hx Hy.
  rewrite (proj1 (VerifyOutput_facts x y text_y Hy)).
  rewrite (proj1 (VerifyOutput_facts y x text_x Hx)).
  split; by intros ->.
Qed.

Lemma VerifyOutput_parsed_source (source validate : document) (output : string) :
  ReadString YAMLToJSON output = (validate, None) →
  (VerifyOutput YAMLToJSON source output).2 = canonical_doc source.
Proof.
  intros Hr. rewrite (VerifyOutput_parsed _ _ _ _ Hr). cbn [fst snd].
  apply compareRoot_left.
Qed.

(** X12: the rewriting of the reference document does not change what a
    later check says: checking the document a first call has left behind
    against the same text succeeds exactly when the first call did, and
    after a call that succeeded it returns the same; whatever the first
    call found, the second changes the document no further. *)
Theorem VerifyOutput_again (source : document) (output : string) :
  let r1 := VerifyOutput YAMLToJSON source output in
  let r2 := VerifyOutput YAMLToJSON r1.2 output in
  (r2.1 = None ↔ r1.1 = None) ∧ (r1.1 = None → r2 = r1) ∧ r2.2 = r1.2.
Proof.
  cbn zeta. destruct (ReadString YAMLToJSON output) as [validate [e|]] eqn:Hr.
  - rewrite (VerifyOutput_unparsed YAMLToJSON source output e) by by rewrite Hr.
    cbn [fst snd].
    by rewrite (VerifyOutput_unparsed YAMLToJSON source output e) by by rewrite Hr.
  - destruct (VerifyOutput_facts source validate output Hr) as (H1 & H2 & H3).
    pose proof (VerifyOutput_parsed_source source validate output Hr) as Hs.
    destruct (VerifyOutput YAMLToJSON source output) as [e1 s1] eqn:Hv1.
    cbn [fst snd] in *. subst s1.
    destruct (VerifyOutput_facts (canonical_doc source) validate output Hr)
      as (G1 & G2 & G3).
    pose proof (VerifyOutput_parsed_source (canonical_doc source) validate output Hr)
      as Gs.
    rewrite canonical_doc_idemp in G1, Gs.
    destruct (VerifyOutput YAMLToJSON (canonical_doc source) output) as [e2 s2].
    cbn [fst snd] in *. subst s2.
    split; [by rewrite G1, H1|]. split; [|done].
    intros ->. f_equal. apply G1, H1. done.
Qed.

(** X13: a nil document is equivalent to a nil document only: when the
    reference document or the parsed candidate is nil, the check succeeds
    exactly when both are; an empty mapping is not a nil one. *)
Theorem VerifyOutput_nil (source validate : document) (output : string) :
  ReadString YAMLToJSON output = (validate, None) →
  source = None ∨ validate = None →
  (VerifyOutput YAMLToJSON source output).1 = None ↔ source = validate.
Proof.
  intros Hr Hn. rewrite (proj1 (VerifyOutput_facts source validate output Hr)).
  destruct Hn as [-> | ->]; cbn [canonical_doc fmap option_fmap option_map].
  - split; [|by intros <-].
    intros H. symmetry in H. apply -> canonical_doc_nil in H. by subst.
  - split; [|by intros ->].
    intros H. by apply -> canonical_doc_nil in H.
Qed.

End Verify_more.

Lemma VerifyOutput_symmetric_witness :
  (VerifyOutput sample_converter
     (Some {[ "Fn::GetAtt" := VSlice [VString "a"; VString "b"] ]}) "").1 = None
  ↔ (VerifyOutput sample_converter None text_flat).1 = None.
Proof.
  apply (VerifyOutput_symmetric sample_converter _ _ text_flat "");
    reflexivity.
Defined.

Lemma VerifyOutput_again_witness :
  VerifyOutput sample_converter
    (VerifyOutput sample_converter sample_flat text_flat).2 text_flat
  = VerifyOutput sample_converter sample_flat text_flat
  ∧ ((VerifyOutput sample_converter
        (VerifyOutput sample_converter sample_deep text_scalar).2 text_scalar).1 = None
     ↔ (VerifyOutput sample_converter sample_deep text_scalar).1 = None)
  ∧ (VerifyOutput sample_converter
       (VerifyOutput sample_converter sample_deep text_scalar).2 text_scalar).2
    = (VerifyOutput sample_converter sample_deep text_scalar).2.
Proof.
  split; [|split].
  - apply (proj1 (proj2 (VerifyOutput_again sample_converter sample_flat text_flat))).
    reflexivity.
  - apply (proj1 (VerifyOutput_again sample_converter sample_deep text_scalar)).
  - apply (proj2 (proj2 (VerifyOutput_again sample_converter sample_deep text_scalar))).
Defined.

(** The second check of a document that the first has found different
    fails as the first did, on the document as the first left it. *)
Example VerifyOutput_again_deep :
  let r1 := VerifyOutput sample_converter sample_deep text_scalar in
  r1.1 ≠ None ∧ r1.2 ≠ sample_deep
  ∧ VerifyOutput sample_converter r1.2 text_scalar = r1.
Proof.
  cbn zeta. split; [|split].
  - vm_compute. discriminate.
  - vm_compute. discriminate.
  - vm_compute. reflexivity.
Qed.

Lemma VerifyOutput_nil_witness :
  (VerifyOutput sample_converter (Some ∅) "").1 = None ↔ Some ∅ = (None : document).
Proof.
  apply (VerifyOutput_nil sample_converter (Some ∅) None ""); [reflexivity|by right].
Defined.

(** ** Documents in the list spelling already *)

(** X14: a reference document that holds no string under any "Fn::GetAtt",
    at any depth, so that the rewrite of the check would change nothing in
    it, is the same after [VerifyOutput] as before, whatever the candidate
    and whatever the verdict. *)
Theorem VerifyOutput_keeps_canonical_source
    (YAMLToJSON : string → value * option error) (source : document) (output : string) :
  canonical_doc source = source →
  (VerifyOutput YAMLToJSON source output).2 = source.
Proof.
  intros Hs. destruct (ReadString YAMLToJSON output) as [validate [e|]] eqn:Hr.
  - by rewrite (VerifyOutput_unparsed YAMLToJSON source output e) by by rewrite Hr.
  - rewrite (VerifyOutput_parsed _ _ _ _ Hr). cbn [snd].
    by rewrite compareRoot_left.
Qed.

Lemma VerifyOutput_keeps_canonical_source_witness :
  (VerifyOutput sample_converter
     (Some {[ "R" := VSlice [VMap {[ "Fn::GetAtt" := VSlice [VString "x"; VString "y"] ]}] ]})
     "Fn::GetAtt: [a, b]").2
  = Some {[ "R" := VSlice [VMap {[ "Fn::GetAtt" := VSlice [VString "x"; VString "y"] ]}] ]}.
Proof.
  apply (VerifyOutput_keeps_canonical_source sample_converter).
  vm_compute. reflexivity.
Defined.

(** ** What the canonicalizer keeps *)

(** X15: the canonicalizer loses nothing of a string: two different strings
    never become the same sequence, so that "a" (no attribute) and "a."
    (an empty attribute) stay apart. *)
Theorem transformGetAtt_string_inj (s1 s2 : string) :
  transformGetAtt (VString s1) = transformGetAtt (VString s2) → s1 = s2.
Proof.
  rewrite !transformGetAtt_string.
  destruct (strings_.Index s1 "." <? 0)%Z eqn:H1,
           (strings_.Index s2 "." <? 0)%Z eqn:H2; try done.
  - by intros [= ->].
  - destruct (Index_dot_present s1 H1) as [E1 _].
    destruct (Index_dot_present s2 H2) as [E2 _].
    cbn zeta in E1, E2. intros [= Ht Hd]. rewrite E1, E2. by rewrite Ht, Hd.
Qed.

Lemma transformGetAtt_string_inj_witness :
  "a.b" = "a.b"
  ∧ transformGetAtt (VString "a") ≠ transformGetAtt (VString "a.").
Proof.
  split.
  - apply (transformGetAtt_string_inj "a.b" "a.b"). reflexivity.
  - intros H. apply transformGetAtt_string_inj in H. discriminate H.
Defined.
